(** * stereoscope: image source detection and the docker daemon provider

    A shallow embedding of the two Go packages of
    [pkg/image/docker/daemon_provider.go]:
      - package [docker] (lines 1-261): [pull], [newPullOptions],
        [encodeCredentials], [trackSaveProgress], [Provide];
      - package [image] (lines 262-485): [ParseSourceScheme],
        [detectSource], [DetermineImagePullSource], [detectSourceFromPath].

    Go's [(value, error)] returns are kept as pairs where the source returns
    a meaningful value next to the error, and as [result] otherwise.  The
    filesystem, the home directory, the reference parser and the docker
    daemon are external collaborators: their answers are the fields of
    [World] and of [Daemon.Host]. *)

From Stdlib Require Import String Ascii List Bool Arith ZArith Lia.
Import ListNotations.
Open Scope list_scope.
Open Scope string_scope.

(** ** Go errors *)

Module GoError.

(** The error values the code tells apart.  [ErrWrap msg e] is
    [fmt.Errorf(msg + ": %w", e)]. *)
Inductive error : Type :=
| ErrNotExist (path : string)          (* *os.PathError over ENOENT *)
| ErrPermission (path : string)        (* *os.PathError over EACCES *)
| ErrFileNotFound (path : string)      (* *file.ErrFileNotFound *)
| ErrImageNotFound (ref : string)      (* the docker client's not-found error *)
| ErrDeadlineExceeded                  (* context.DeadlineExceeded *)
| ErrNew (msg : string)                (* errors.New / fmt.Errorf without %w *)
| ErrWrap (msg : string) (cause : error).

(** [os.IsNotExist]: looks through *PathError only, not through [%w]. *)
Definition os_IsNotExist (err : option error) : bool :=
  match err with
  | Some (ErrNotExist _) => true
  | _ => false
  end.

(** [errors.As(err, &fileErr)] with [fileErr *file.ErrFileNotFound]: walks
    the [Unwrap] chain. *)
Fixpoint errors_As_ErrFileNotFound (err : error) : bool :=
  match err with
  | ErrFileNotFound _ => true
  | ErrWrap _ cause => errors_As_ErrFileNotFound cause
  | _ => false
  end.

(** [client.IsErrNotFound]: walks the cause chain as well. *)
Fixpoint client_IsErrNotFound (err : error) : bool :=
  match err with
  | ErrImageNotFound _ => true
  | ErrWrap _ cause => client_IsErrNotFound cause
  | _ => false
  end.

Inductive result (A : Type) : Type :=
| Ok (a : A)
| Err (e : error).
Arguments Ok {A} a.
Arguments Err {A} e.

End GoError.
Export GoError.

(** ** The [strings] functions the code uses *)

Module Strings.

Definition lower_ascii (c : ascii) : ascii :=
  let n := nat_of_ascii c in
  if ((65 <=? n) && (n <=? 90))%nat then ascii_of_nat (n + 32) else c.

(** [strings.ToLower] on the ASCII letters: the scheme vocabulary is ASCII,
    and bytes outside A-Z are left as they are.  (Go lowers the letters
    outside ASCII as well; two of them, U+212A and U+0130, lower to the
    ASCII letters k and i, and strings that hold them are outside this
    model.) *)
Fixpoint ToLower (s : string) : string :=
  match s with
  | EmptyString => EmptyString
  | String c r => String (lower_ascii c) (ToLower r)
  end.

Definition HasPrefix (s pre : string) : bool := prefix pre s.

Fixpoint drop (n : nat) (s : string) : string :=
  match n, s with
  | O, _ => s
  | S _, EmptyString => EmptyString
  | S m, String _ r => drop m r
  end.

(** [strings.TrimPrefix]. *)
Definition TrimPrefix (s pre : string) : string :=
  if HasPrefix s pre then drop (String.length pre) s else s.

(** The first occurrence of [sep] in [s]: what is before it and what is
    after it. *)
Fixpoint Cut (sep s : string) : option (string * string) :=
  if prefix sep s then Some (EmptyString, drop (String.length sep) s)
  else match s with
       | EmptyString => None
       | String c r =>
           match Cut sep r with
           | Some (before, after) => Some (String c before, after)
           | None => None
           end
       end.

(** [strings.SplitN(s, sep, 2)] for a non-empty [sep]: one element when
    [sep] does not occur, else the two sides of its first occurrence. *)
Definition SplitN2 (s sep : string) : list string :=
  match Cut sep s with
  | None => [s]
  | Some (before, after) => [before; after]
  end.

End Strings.
Export Strings.

(** ** Package [image]: source detection *)

Inductive Source : Type :=
| UnknownSource
| DockerTarballSource
| DockerDaemonSource
| OciDirectorySource
| OciTarballSource
| OciRegistrySource.

Definition Source_eqb (a b : Source) : bool :=
  match a, b with
  | UnknownSource, UnknownSource
  | DockerTarballSource, DockerTarballSource
  | DockerDaemonSource, DockerDaemonSource
  | OciDirectorySource, OciDirectorySource
  | OciTarballSource, OciTarballSource
  | OciRegistrySource, OciRegistrySource => true
  | _, _ => false
  end.

Definition SchemeSeparator : string := ":".

(** [Source.String]: the display names of [sourceStr]. *)
Definition Source_String (t : Source) : string :=
  match t with
  | UnknownSource => "UnknownSource"
  | DockerTarballSource => "DockerTarball"
  | DockerDaemonSource => "DockerDaemon"
  | OciDirectorySource => "OciDirectory"
  | OciTarballSource => "OciTarball"
  | OciRegistrySource => "OciRegistry"
  end.

Definition AllSources : list Source :=
  [DockerTarballSource; DockerDaemonSource; OciDirectorySource;
   OciTarballSource; OciRegistrySource].

Definition ParseSourceScheme (source : string) : Source :=
  let source := ToLower source in
  if source =? "docker-archive" then DockerTarballSource
  else if source =? "docker" then DockerDaemonSource
  else if source =? "oci-dir" then OciDirectorySource
  else if source =? "oci-archive" then OciTarballSource
  else if (source =? "oci-registry") || (source =? "registry")
       then OciRegistrySource
  else UnknownSource.

(** *** The collaborators *)

Record FileInfo : Type := { IsDir : bool }.

(** What [tar.Reader.Next] yields, one step at a time: a member header or a
    read fault; the end of the list is [io.EOF]. *)
Inductive tar_item : Type :=
| TarHeader (name : string)
| TarFault (e : error).

(** An open [afero.File]: the tar stream it holds, the read offset (in
    items), and the fault [Seek] reports, if any. *)
Record File : Type := {
  f_items : list tar_item;
  f_pos : nat;
  f_seek_fault : option error
}.

(** [types.Ping]. *)
Record Ping : Type := { APIVersion : string }.

Record World : Type := {
  (* github.com/mitchellh/go-homedir *)
  homedir_Expand : string -> result string;
  (* path.Join of two elements *)
  path_Join : string -> string -> string;
  (* afero.Fs *)
  fs_Stat : string -> result FileInfo;
  fs_Open : string -> result File;
  (* name.ParseReference(_, name.WeakValidation): the error it returns *)
  name_ParseReference_weak : string -> option error;
  (* internal/docker.GetClient, and the answer to Ping under the
     10 second deadline (a missed deadline is an error answer) *)
  docker_GetClient : option error;
  client_Ping : result Ping
}.

(** [archive.Seek(0, io.SeekStart)]. *)
Definition Seek0 (f : File) : File * option error :=
  match f_seek_fault f with
  | Some e => (f, Some e)
  | None => ({| f_items := f_items f; f_pos := 0;
                f_seek_fault := f_seek_fault f |}, None)
  end.

(** The member scan of [file.ReaderFromTar]: walk the headers from the
    current offset; stop at the first header named [tarPath]. *)
Fixpoint scanTar (items : list tar_item) (tarPath : string) (pos : nat)
  : nat * option error :=
  match items with
  | [] => (pos, Some (ErrFileNotFound tarPath))
  | TarHeader name :: rest =>
      if name =? tarPath then (S pos, None)
      else scanTar rest tarPath (S pos)
  | TarFault e :: _ => (pos, Some e)
  end.

(** Modelled from the spec: [file.ReaderFromTar] of pkg/file is not among
    the sources.  The spec has the lookup find a top-level member by its
    literal name, answer "member not found" (a *file.ErrFileNotFound) when
    the archive ends without it, and pass on any other read error.  The
    reader is consumed from where it stands, which is why the caller seeks
    first. *)
Definition ReaderFromTar (f : File) (tarPath : string) : File * option error :=
  let '(pos, err) := scanTar (skipn (f_pos f) (f_items f)) tarPath (f_pos f) in
  ({| f_items := f_items f; f_pos := pos; f_seek_fault := f_seek_fault f |},
   err).

Definition isRegistryReference (w : World) (imageSpec : string) : bool :=
  match name_ParseReference_weak w imageSpec with
  | None => true
  | Some _ => false
  end.

(** The table [detectSourceFromPath] ranges over. *)
Definition archiveProbes : list (string * Source) :=
  [("manifest.json", DockerTarballSource); ("oci-layout", OciTarballSource)].

(** The [for _, pair := range ...] loop of [detectSourceFromPath]. *)
Fixpoint probeArchive (imgPath : string) (archive : File)
  (pairs : list (string * Source)) : Source * option error :=
  match pairs with
  | [] => (UnknownSource, None)
  | (p, source) :: rest =>
      match Seek0 archive with
      | (_, Some e) =>
          (UnknownSource, Some (ErrWrap ("unable to seek archive=" ++ imgPath) e))
      | (archive, None) =>
          match ReaderFromTar archive p with
          | (_, None) => (source, None)
          | (archive, Some e) =>
              if errors_As_ErrFileNotFound e
              then probeArchive imgPath archive rest
              else (UnknownSource, Some e)
          end
      end
  end.

Definition detectSourceFromPath (w : World) (imgPath : string)
  : Source * option error :=
  match homedir_Expand w imgPath with
  | Err e =>
      (UnknownSource,
       Some (ErrWrap "unable to expand potential home dir expression" e))
  | Ok imgPath =>
      match fs_Stat w imgPath with
      | Err e =>
          if os_IsNotExist (Some e) then (UnknownSource, None)
          else (UnknownSource,
                Some (ErrWrap ("failed to open path=" ++ imgPath) e))
      | Ok pathStat =>
          if IsDir pathStat then
            match fs_Stat w (path_Join w imgPath "oci-layout") with
            | Err e =>
                if negb (os_IsNotExist (Some e)) then (OciDirectorySource, None)
                else (UnknownSource, None)
            | Ok _ =>
                if negb (os_IsNotExist None) then (OciDirectorySource, None)
                else (UnknownSource, None)
            end
          else
            match fs_Open w imgPath with
            | Err e =>
                (UnknownSource,
                 Some (ErrWrap ("unable to open archive=" ++ imgPath) e))
            | Ok archive => probeArchive imgPath archive archiveProbes
            end
      end
  end.

Definition DetermineImagePullSource (w : World) (userInput : string) : Source :=
  if negb (isRegistryReference w userInput) then UnknownSource
  else
    match docker_GetClient w with
    | None =>
        match client_Ping w with
        | Ok pong =>
            if negb (APIVersion pong =? "") then DockerDaemonSource
            else OciRegistrySource
        | Err _ => OciRegistrySource
        end
    | Some _ => OciRegistrySource
    end.

(** The first [switch] of [detectSource] (on [len(candidates)]): the source
    and location it leaves behind, or the error it returns with. *)
Definition detectSource_candidates (w : World) (userInput : string)
  : result (Source * string) :=
  match SplitN2 userInput SchemeSeparator with
  | [_] =>
      let location := userInput in
      match detectSourceFromPath w location with
      | (_, Some err) => Err err
      | (source, None) => Ok (source, location)
      end
  | [sourceHint; _] =>
      Ok (ParseSourceScheme sourceHint,
          TrimPrefix userInput (sourceHint ++ SchemeSeparator))
  | _ => Ok (UnknownSource, userInput)
  end.

(** The second [switch] of [detectSource] (on [source]) and its return. *)
Definition detectSource_resolve (w : World) (userInput : string)
  (source : Source) (location : string) : Source * string * option error :=
  match source with
  | OciDirectorySource | OciTarballSource | DockerTarballSource =>
      match homedir_Expand w location with
      | Err e =>
          (UnknownSource, "",
           Some (ErrWrap "unable to expand potential home dir expression" e))
      | Ok location => (source, location, None)
      end
  | UnknownSource =>
      let imagePullSource := DetermineImagePullSource w userInput in
      if negb (Source_eqb imagePullSource UnknownSource)
      then (imagePullSource, userInput, None)
      else (source, "", None)
  | _ => (source, location, None)
  end.

Definition detectSource (w : World) (userInput : string)
  : Source * string * option error :=
  match detectSource_candidates w userInput with
  | Err err => (UnknownSource, "", Some err)
  | Ok (source, location) => detectSource_resolve w userInput source location
  end.

(** ** Package [docker]: the daemon provider *)

Module Daemon.

(** [types.ImageInspect], the fields the provider reads.  The docker client
    returns the zero value next to every error. *)
Record ImageInspect : Type := {
  RepoTags : list string;
  RepoDigests : list string;
  VirtualSize : Z
}.

Definition ImageInspect_zero : ImageInspect :=
  {| RepoTags := []; RepoDigests := []; VirtualSize := 0 |}.

(** [pullEvent] (declared in pull_status.go): the fields of one status
    message of the pull stream. *)
Record pullEvent : Type := { ID : string; Status : string }.

(** One [decoder.Decode(&thePullEvent)]: the event as it stands after the
    call, or the error of the call.  The end of the list is [io.EOF]. *)
Inductive decode_step : Type :=
| Decoded (ev : pullEvent)
| DecodeFault (err : error).

(** The body of an [ImagePull] response, and the record the daemon holds for
    the reference once that body has been read to its end. *)
Record PullResponse : Type := {
  pr_stream : list decode_step;
  pr_stored : option ImageInspect
}.

(** The [io.ReadCloser] of [ImageSave]: what [io.Copy] returns on it. *)
Record ReadCloser : Type := {
  rc_bytes : Z;
  rc_fault : option error
}.

Record ConfigFile : Type := { Filename : string }.
Record AuthConfig : Type := { Username : string; Password : string }.
Record ImagePullOptions : Type := { RegistryAuth : string }.

(** The image object of the tarball provider. *)
Record Image : Type := { image_handle : nat }.

(** Modelled from the spec: [PullStatus] and its [onEvent] (pull_status.go)
    are not among the sources.  The spec has a mutable record that the
    decoding loop forwards events into and a terminal flag; the record here
    keeps the forwarded events, oldest first, and the flag. *)
Record PullStatus : Type := {
  ps_events : list pullEvent;
  complete : bool
}.

Definition newPullStatus : PullStatus :=
  {| ps_events := []; complete := false |}.

(** What goes onto the bus; the values travel by reference and live in
    [State]. *)
Inductive Event : Type :=
| PullDockerImage (source : string)            (* Value: the pull status *)
| FetchImage (source : string) (size : Z).     (* Value: stage + aggregator *)

(** The collaborators of the provider: each field is the answer of one
    external call. *)
Record Host : Type := {
  tmpDirGen_NewTempDir : result string;
  host_path_Join : string -> string -> string;
  os_Create : string -> option error;
  host_GetClient : option error;
  (* an inspection fault other than a missing image *)
  inspect_fault : option error;
  config_Load : result ConfigFile;
  (* name.ParseReference(image), then ref.Context().RegistryStr() *)
  name_ParseReference_registry : string -> result string;
  cfg_GetAuthConfig : ConfigFile -> string -> result AuthConfig;
  (* json.Encoder.Encode of {username, password} without HTML escaping *)
  json_Encode : string -> string -> result string;
  base64_EncodeToString : string -> string;
  client_ImagePull : string -> ImagePullOptions -> result PullResponse;
  client_ImageSave : string -> result ReadCloser;
  (* NewProviderFromTarball(path, tmpDirGen, tags, digests).Provide() *)
  tarball_Provide : string -> list string -> list string -> result Image
}.

(** What one [Provide] call reads and writes besides its result. *)
Record State : Type := {
  (* daemon side: the record of p.imageStr in the local store *)
  st_local : option ImageInspect;
  (* events published on the bus, oldest first *)
  st_bus : list Event;
  (* the pull status record, once created *)
  st_status : option PullStatus;
  (* the assignments to stage.Current, oldest first (the cell is created
     with Go's zero value, the empty string) *)
  st_stage : list string;
  (* estimateSaveProgress.SetCompleted() was called *)
  st_estimate_completed : bool;
  (* bytes written to the archive file and to copyProgress *)
  st_copied : Z;
  (* the arguments handed to the tarball provider *)
  st_handoff : option (string * list string * list string);
  (* deferred Close calls that ran *)
  st_tar_closed : bool;
  st_reader_closed : bool
}.

Definition init (local : option ImageInspect) : State :=
  {| st_local := local; st_bus := []; st_status := None; st_stage := [];
     st_estimate_completed := false; st_copied := 0; st_handoff := None;
     st_tar_closed := false; st_reader_closed := false |}.

(** *** State and error passing *)

Definition M (A : Type) : Type := State -> State * result A.

Definition ret {A} (a : A) : M A := fun s => (s, Ok a).
Definition fail {A} (e : error) : M A := fun s => (s, Err e).
Definition bind {A B} (m : M A) (k : A -> M B) : M B :=
  fun s => match m s with
           | (s', Ok a) => k a s'
           | (s', Err e) => (s', Err e)
           end.
Definition modify (f : State -> State) : M unit := fun s => (f s, Ok tt).
Definition get : M State := fun s => (s, Ok s).

(** [v, err := call(); if err != nil { return fmt.Errorf(msg, err) }]. *)
Definition call {A} (r : result A) (wrap : error -> error) : M A :=
  match r with
  | Ok a => ret a
  | Err e => fail (wrap e)
  end.

Definition must (r : option error) (wrap : error -> error) : M unit :=
  match r with
  | None => ret tt
  | Some e => fail (wrap e)
  end.

(** [if err != nil { return fmt.Errorf(msg, err) }] after a call with
    effects. *)
Definition rewrap {A} (m : M A) (wrap : error -> error) : M A :=
  fun s => match m s with
           | (s', Ok a) => (s', Ok a)
           | (s', Err e) => (s', Err (wrap e))
           end.

(** [defer f()] around the rest of the function body. *)
Definition defer {A} (f : State -> State) (body : M A) : M A :=
  fun s => let '(s', r) := body s in (f s', r).

Declare Scope go_scope.
Delimit Scope go_scope with go.
Notation "x <- m ;; k" := (bind m (fun x => k))
  (at level 61, m at next level, right associativity) : go_scope.
Notation "m ;;; k" := (bind m (fun _ => k))
  (at level 61, right associativity) : go_scope.
Open Scope go_scope.

(** *** State updates *)

Definition publish (ev : Event) (s : State) : State :=
  {| st_local := st_local s; st_bus := (st_bus s ++ [ev])%list;
     st_status := st_status s; st_stage := st_stage s;
     st_estimate_completed := st_estimate_completed s;
     st_copied := st_copied s; st_handoff := st_handoff s;
     st_tar_closed := st_tar_closed s;
     st_reader_closed := st_reader_closed s |}.

Definition with_status (f : option PullStatus -> option PullStatus)
  (s : State) : State :=
  {| st_local := st_local s; st_bus := st_bus s;
     st_status := f (st_status s); st_stage := st_stage s;
     st_estimate_completed := st_estimate_completed s;
     st_copied := st_copied s; st_handoff := st_handoff s;
     st_tar_closed := st_tar_closed s;
     st_reader_closed := st_reader_closed s |}.

Definition with_local (l : option ImageInspect) (s : State) : State :=
  {| st_local := l; st_bus := st_bus s;
     st_status := st_status s; st_stage := st_stage s;
     st_estimate_completed := st_estimate_completed s;
     st_copied := st_copied s; st_handoff := st_handoff s;
     st_tar_closed := st_tar_closed s;
     st_reader_closed := st_reader_closed s |}.

(** [stage.Current = v]. *)
Definition set_stage (v : string) (s : State) : State :=
  {| st_local := st_local s; st_bus := st_bus s;
     st_status := st_status s; st_stage := (st_stage s ++ [v])%list;
     st_estimate_completed := st_estimate_completed s;
     st_copied := st_copied s; st_handoff := st_handoff s;
     st_tar_closed := st_tar_closed s;
     st_reader_closed := st_reader_closed s |}.

Definition SetCompleted (s : State) : State :=
  {| st_local := st_local s; st_bus := st_bus s;
     st_status := st_status s; st_stage := st_stage s;
     st_estimate_completed := true;
     st_copied := st_copied s; st_handoff := st_handoff s;
     st_tar_closed := st_tar_closed s;
     st_reader_closed := st_reader_closed s |}.

Definition write_bytes (n : Z) (s : State) : State :=
  {| st_local := st_local s; st_bus := st_bus s;
     st_status := st_status s; st_stage := st_stage s;
     st_estimate_completed := st_estimate_completed s;
     st_copied := n; st_handoff := st_handoff s;
     st_tar_closed := st_tar_closed s;
     st_reader_closed := st_reader_closed s |}.

Definition hand_off (h : string * list string * list string) (s : State)
  : State :=
  {| st_local := st_local s; st_bus := st_bus s;
     st_status := st_status s; st_stage := st_stage s;
     st_estimate_completed := st_estimate_completed s;
     st_copied := st_copied s; st_handoff := Some h;
     st_tar_closed := st_tar_closed s;
     st_reader_closed := st_reader_closed s |}.

Definition close_tar (s : State) : State :=
  {| st_local := st_local s; st_bus := st_bus s;
     st_status := st_status s; st_stage := st_stage s;
     st_estimate_completed := st_estimate_completed s;
     st_copied := st_copied s; st_handoff := st_handoff s;
     st_tar_closed := true;
     st_reader_closed := st_reader_closed s |}.

Definition close_reader (s : State) : State :=
  {| st_local := st_local s; st_bus := st_bus s;
     st_status := st_status s; st_stage := st_stage s;
     st_estimate_completed := st_estimate_completed s;
     st_copied := st_copied s; st_handoff := st_handoff s;
     st_tar_closed := st_tar_closed s;
     st_reader_closed := true |}.

(** [status.onEvent(ev)]. *)
Definition onEvent (ev : pullEvent) (st : option PullStatus)
  : option PullStatus :=
  match st with
  | Some p => Some {| ps_events := (ps_events p ++ [ev])%list;
                      complete := complete p |}
  | None => None
  end.

(** [status.complete = true]. *)
Definition set_complete (st : option PullStatus) : option PullStatus :=
  match st with
  | Some p => Some {| ps_events := ps_events p; complete := true |}
  | None => None
  end.

(** *** The provider *)

Section Provider.

Variable h : Host.
(** [p.imageStr]. *)
Variable imageStr : string.

(** [dockerClient.ImageInspectWithRaw(ctx, p.imageStr)]. *)
Definition ImageInspectWithRaw : M (ImageInspect * option error) :=
  s <- get ;;
  match inspect_fault h with
  | Some e => ret (ImageInspect_zero, Some e)
  | None =>
      match st_local s with
      | Some inspect => ret (inspect, None)
      | None => ret (ImageInspect_zero, Some (ErrImageNotFound imageStr))
      end
  end.

Definition encodeCredentials (username password : string) : result string :=
  match json_Encode h username password with
  | Err e => Err e
  | Ok buffer => Ok (base64_EncodeToString h buffer)
  end.

Definition newPullOptions (image : string) (cfg : ConfigFile)
  : result ImagePullOptions :=
  match name_ParseReference_registry h image with
  | Err e => Err e
  | Ok hostname =>
      match cfg_GetAuthConfig h cfg hostname with
      | Err e =>
          Err (ErrWrap ("failed to fetch registry auth (hostname=" ++ hostname
                        ++ ")") e)
      | Ok creds =>
          if negb (Username creds =? "") then
            match encodeCredentials (Username creds) (Password creds) with
            | Err e => Err e
            | Ok auth => Ok {| RegistryAuth := auth |}
            end
          else Ok {| RegistryAuth := "" |}
      end
  end.

(** The [for] loop of [pull] over the decoder. *)
Fixpoint pull_loop (resp : list decode_step) : M unit :=
  match resp with
  | [] => ret tt
  | DecodeFault err :: _ => fail (ErrWrap "failed to pull image" err)
  | Decoded thePullEvent :: rest =>
      if HasPrefix (Status thePullEvent) "Digest:"
         || HasPrefix (Status thePullEvent) "Status:"
      then pull_loop rest
      else modify (with_status (onEvent thePullEvent)) ;;; pull_loop rest
  end.

Definition pull : M unit :=
  cfg <- call (config_Load h) (ErrWrap "failed to load docker config") ;;
  modify (with_status (fun _ => Some newPullStatus)) ;;;
  defer (with_status set_complete)
    (modify (publish (PullDockerImage imageStr)) ;;;
     must (host_GetClient h) (ErrWrap "failed to load docker client") ;;;
     options <- call (newPullOptions imageStr cfg) (fun e => e) ;;
     resp <- call (client_ImagePull h imageStr options) (ErrWrap "pull failed") ;;
     pull_loop (pr_stream resp) ;;;
     (* the body was read to its end: the daemon now holds what it stored *)
     modify (with_local (pr_stored resp))).

(** The time estimate ([inspect.VirtualSize] at 125 MB/s, computed in
    floating point) is not represented; the published event keeps the
    size both progress signals are seeded with. *)
Definition trackSaveProgress : M unit :=
  must (host_GetClient h) (ErrWrap "unable to get docker client") ;;;
  r <- ImageInspectWithRaw ;;
  let '(inspect, err) := r in
  must err (ErrWrap "unable to inspect image") ;;;
  modify (publish (FetchImage imageStr (VirtualSize inspect))).

(** [Provide], lines 171-182: the existence check and the conditional
    pull; what is left in [inspectResult] afterwards. *)
Definition Provide_inspect : M ImageInspect :=
  r <- ImageInspectWithRaw ;;
  let '(inspectResult, err) := r in
  match err with
  | Some err =>
      if client_IsErrNotFound err then pull
      else fail (ErrWrap "unable to inspect existing image" err)
  | None => ret tt
  end ;;;
  ret inspectResult.

(** [Provide], lines 202-217: from the save stream to the tarball
    provider. *)
Definition Provide_copy (tempTarFile : string) (inspectResult : ImageInspect)
  (readCloser : ReadCloser) : M Image :=
  modify SetCompleted ;;;
  modify (set_stage "saving image to disk") ;;;
  modify (write_bytes (rc_bytes readCloser)) ;;;
  let nBytes := rc_bytes readCloser in
  must (rc_fault readCloser) (ErrWrap "unable to save image to tar") ;;;
  if (nBytes =? 0)%Z then fail (ErrNew "cannot provide an empty image")
  else
    modify (hand_off (tempTarFile, RepoTags inspectResult,
                      RepoDigests inspectResult)) ;;;
    call (tarball_Provide h tempTarFile (RepoTags inspectResult)
           (RepoDigests inspectResult)) (fun e => e).

(** [Provide], lines 184-200: progress tracking and the save request. *)
Definition Provide_save (tempTarFile : string) (inspectResult : ImageInspect)
  : M Image :=
  rewrap trackSaveProgress (ErrWrap "unable to trace image save progress") ;;;
  modify (set_stage "requesting image from Docker") ;;;
  readCloser <- call (client_ImageSave h imageStr)
                    (ErrWrap "unable to save image tar") ;;
  defer close_reader (Provide_copy tempTarFile inspectResult readCloser).

Definition Provide : M Image :=
  imageTempDir <- call (tmpDirGen_NewTempDir h) (fun e => e) ;;
  let tempTarFile := host_path_Join h imageTempDir "image.tar" in
  must (os_Create h tempTarFile)
        (ErrWrap "unable to create temp file for image") ;;;
  defer close_tar
    (must (host_GetClient h) (ErrWrap "unable to create a docker client") ;;;
     inspectResult <- Provide_inspect ;;
     Provide_save tempTarFile inspectResult).

End Provider.

End Daemon.

(** ** Statements of the specification, and sample environments *)

(** The members a reader can list: the headers up to the first fault. *)
Fixpoint members (items : list tar_item) : list string :=
  match items with
  | [] => []
  | TarHeader name :: rest => name :: members rest
  | TarFault _ :: _ => []
  end.

(** The specification's "no hint at all": the filesystem probe (on the whole
    string), then the registry-reference probe. *)
Definition detect_without_hint (w : World) (userInput : string)
  : Source * string * option error :=
  match detectSourceFromPath w userInput with
  | (_, Some err) => (UnknownSource, "", Some err)
  | (source, None) => detectSource_resolve w userInput source userInput
  end.

(** The specification's "the daemon answers": a client is there, the ping
    returns without error, and its API version is not empty. *)
Definition daemon_answers (w : World) : Prop :=
  docker_GetClient w = None /\
  exists pong, client_Ping w = Ok pong /\ APIVersion pong <> "".

(** The sources that name a path on the filesystem. *)
Definition path_based (s : Source) : bool :=
  match s with
  | OciDirectorySource | OciTarballSource | DockerTarballSource => true
  | _ => false
  end.

(** The same world over another filesystem. *)
Definition with_fs (w : World) (stat : string -> result FileInfo)
  (open : string -> result File) (expand : string -> result string) : World :=
  {| homedir_Expand := expand;
     path_Join := path_Join w;
     fs_Stat := stat;
     fs_Open := open;
     name_ParseReference_weak := name_ParseReference_weak w;
     docker_GetClient := docker_GetClient w;
     client_Ping := client_Ping w |}.

Module Sample.

(** go-homedir's [Expand] for the home directory [home]. *)
Definition expand (home : string) (p : string) : result string :=
  match p with
  | String "~" EmptyString => Ok home
  | String "~" (String "/" r) => Ok (home ++ "/" ++ r)
  | String "~" _ => Err (ErrNew "cannot expand user-specific home dir")
  | _ => Ok p
  end.

(** A filesystem as a table: a path is a directory ([inl tt]) or a file
    holding a tar stream. *)
Definition tree : Type := list (string * (unit + list tar_item)).

Fixpoint lookup (t : tree) (p : string) : option (unit + list tar_item) :=
  match t with
  | [] => None
  | (q, node) :: rest => if q =? p then Some node else lookup rest p
  end.

Definition stat (t : tree) (p : string) : result FileInfo :=
  match lookup t p with
  | None => Err (ErrNotExist p)
  | Some (inl _) => Ok {| IsDir := true |}
  | Some (inr _) => Ok {| IsDir := false |}
  end.

Definition open (t : tree) (p : string) : result File :=
  match lookup t p with
  | Some (inr items) =>
      Ok {| f_items := items; f_pos := 0; f_seek_fault := None |}
  | Some (inl _) => Err (ErrNew "is a directory")
  | None => Err (ErrNotExist p)
  end.

(** A world over the tree [t], where exactly the strings of [refs] parse as
    image references. *)
Definition world (t : tree) (refs : list string) (client : option error)
  (ping : result Ping) : World :=
  {| homedir_Expand := expand "/home/user";
     path_Join := fun a b => a ++ "/" ++ b;
     fs_Stat := stat t;
     fs_Open := open t;
     name_ParseReference_weak := fun s =>
       if existsb (String.eqb s) refs then None
       else Some (ErrNew "could not parse reference");
     docker_GetClient := client;
     client_Ping := ping |}.

Definition no_daemon : result Ping := Err ErrDeadlineExceeded.

(** A directory named bogus:thing and one named thing, both OCI layouts. *)
Definition w_bogus : World :=
  world [("bogus:thing", inl tt); ("bogus:thing/oci-layout", inr []);
         ("thing", inl tt); ("thing/oci-layout", inr [])]
        ["bogus:thing"; "thing"] None no_daemon.

(** An archive that holds oci-layout before manifest.json. *)
Definition w_both : World :=
  world [("img.tar", inr [TarHeader "oci-layout"; TarHeader "index.json";
                          TarHeader "manifest.json"])]
        [] None no_daemon.

(** No file named alpine; the string alpine is an image reference. *)
Definition w_alpine : World := world [] ["alpine"] None no_daemon.

(** A daemon that answers the ping. *)
Definition w_daemon : World :=
  world [] ["alpine"] None (Ok {| APIVersion := "1.41" |}).

(** A directory whose oci-layout child cannot be examined. *)
Definition w_denied : World :=
  {| homedir_Expand := expand "/home/user";
     path_Join := fun a b => a ++ "/" ++ b;
     fs_Stat := fun p =>
       if p =? "layout" then Ok {| IsDir := true |}
       else if p =? "layout/oci-layout" then Err (ErrPermission p)
       else Err (ErrNotExist p);
     fs_Open := fun p => Err (ErrNotExist p);
     name_ParseReference_weak := fun _ =>
       Some (ErrNew "could not parse reference");
     docker_GetClient := None;
     client_Ping := no_daemon |}.

End Sample.

(** The scheme vocabulary of the specification, in lower case. *)
Definition vocabulary : list (string * Source) :=
  [("docker-archive", DockerTarballSource); ("docker", DockerDaemonSource);
   ("oci-dir", OciDirectorySource); ("oci-archive", OciTarballSource);
   ("oci-registry", OciRegistrySource); ("registry", OciRegistrySource)].

(** *** The pull stream, as the specification reads it *)

Import Daemon.

(** A terminal summary line of the daemon. *)
Definition summary_line (ev : pullEvent) : bool :=
  HasPrefix (Status ev) "Digest:" || HasPrefix (Status ev) "Status:".

(** The events decoded before the stream ends or breaks. *)
Fixpoint decoded (resp : list decode_step) : list pullEvent :=
  match resp with
  | [] => []
  | Decoded ev :: rest => ev :: decoded rest
  | DecodeFault _ :: _ => []
  end.

(** The decode error that breaks the stream, if one does. *)
Fixpoint decode_fault (resp : list decode_step) : option error :=
  match resp with
  | [] => None
  | Decoded _ :: rest => decode_fault rest
  | DecodeFault err :: _ => Some err
  end.

(** The events the status record is to receive. *)
Definition forwarded (resp : list decode_step) : list pullEvent :=
  filter (fun ev => negb (summary_line ev)) (decoded resp).

Definition requesting : string := "requesting image from Docker".
Definition saving : string := "saving image to disk".

(** What the first inspection of [Provide] leaves in [inspectResult]. *)
Definition first_inspection (local : option ImageInspect) : ImageInspect :=
  match local with
  | Some inspect => inspect
  | None => ImageInspect_zero
  end.

(** What the copy step of [Provide] comes to, given the save stream
    [readCloser]: the result, and the hand-off [after] it, if any. *)
Definition copy_outcome (h : Host) (tempTarFile : string)
  (inspectResult : ImageInspect) (readCloser : ReadCloser)
  (before : option (string * list string * list string))
  (r : result Image) (after : option (string * list string * list string))
  : Prop :=
  match rc_fault readCloser with
  | Some e =>
      r = Err (ErrWrap "unable to save image to tar" e) /\ after = before
  | None =>
      if (rc_bytes readCloser =? 0)%Z
      then r = Err (ErrNew "cannot provide an empty image") /\ after = before
      else r = tarball_Provide h tempTarFile (RepoTags inspectResult)
                 (RepoDigests inspectResult) /\
           after = Some (tempTarFile, RepoTags inspectResult,
                         RepoDigests inspectResult)
  end.

Module SampleHost.

Definition alpine : ImageInspect :=
  {| RepoTags := ["alpine:latest"];
     RepoDigests := ["alpine@sha256:c5b1261d"];
     VirtualSize := 5585772 |}.

Definition stream : list decode_step :=
  [Decoded {| ID := "latest"; Status := "Pulling from library/alpine" |};
   Decoded {| ID := "59bf1c3509f3"; Status := "Pulling fs layer" |};
   Decoded {| ID := ""; Status := "Digest: sha256:c5b1261d" |};
   Decoded {| ID := "59bf1c3509f3"; Status := "Pull complete" |};
   Decoded {| ID := "";
              Status := "Status: Downloaded newer image for alpine:latest" |}].

Definition broken_stream : list decode_step :=
  [Decoded {| ID := "59bf1c3509f3"; Status := "Pulling fs layer" |};
   DecodeFault (ErrNew "unexpected EOF");
   Decoded {| ID := "59bf1c3509f3"; Status := "Pull complete" |}].

(** A host where everything but the pull and the save is in order. *)
Definition host (pulled : result PullResponse) (save : result ReadCloser)
  : Host :=
  {| tmpDirGen_NewTempDir := Ok "/tmp/stereoscope-1";
     host_path_Join := fun a b => a ++ "/" ++ b;
     os_Create := fun _ => None;
     host_GetClient := None;
     inspect_fault := None;
     config_Load := Ok {| Filename := "/home/user/.docker/config.json" |};
     name_ParseReference_registry := fun _ => Ok "index.docker.io";
     cfg_GetAuthConfig := fun _ _ => Ok {| Username := ""; Password := "" |};
     json_Encode := fun u p => Ok (u ++ " " ++ p);
     base64_EncodeToString := fun b => b;
     client_ImagePull := fun _ _ => pulled;
     client_ImageSave := fun _ => save;
     tarball_Provide := fun _ tags _ =>
       Ok {| image_handle := List.length tags |} |}.

Definition no_pull : result PullResponse := Err (ErrNew "no route to registry").

(** The image is pulled and stored, and saved with its bytes. *)
Definition h_pull : Host :=
  host (Ok {| pr_stream := stream; pr_stored := Some alpine |})
       (Ok {| rc_bytes := 5585772; rc_fault := None |}).

(** The pull stream breaks. *)
Definition h_broken : Host :=
  host (Ok {| pr_stream := broken_stream; pr_stored := None |})
       (Ok {| rc_bytes := 5585772; rc_fault := None |}).

(** The save stream closes cleanly without a byte. *)
Definition h_empty : Host :=
  host no_pull (Ok {| rc_bytes := 0; rc_fault := None |}).


End SampleHost.

(** ** The rest of package [image]: the display names *)

(** [Source] is a [uint8] counted by [iota]. *)
Definition Source_ord (t : Source) : nat :=
  match t with
  | UnknownSource => 0
  | DockerTarballSource => 1
  | DockerDaemonSource => 2
  | OciDirectorySource => 3
  | OciTarballSource => 4
  | OciRegistrySource => 5
  end.

(** The array [sourceStr]. *)
Definition sourceStr : list string :=
  ["UnknownSource"; "DockerTarball"; "DockerDaemon"; "OciDirectory";
   "OciTarball"; "OciRegistry"].

(** [sourceStr[t]] of [Source.String]; [None] is the index-out-of-range
    panic. *)
Definition Source_String_at (t : Source) : option string :=
  nth_error sourceStr (Source_ord t).

(** ** [client.go] *)

Module Client.

(** The [CleanupFn] a call returns: the no-op closure of [GetImage], or the
    [Cleanup] method of the generator made for the call. *)
Inductive CleanupFn : Type :=
| NoCleanup
| GeneratorCleanup.

(** [image.RegistryOptions], passed on as it comes. *)
Record RegistryOptions : Type := { registry_options_handle : nat }.

(** The collaborators of [GetImageFromSource] besides the daemon provider:
    the [Provide] of each other provider, [Image.Read], and the text
    [%+v] gives for an error. *)
Record Providers : Type := {
  oci_NewProviderFromPath : string -> result Image;
  oci_NewProviderFromTarball : string -> result Image;
  oci_NewProviderFromRegistry :
    string -> option RegistryOptions -> result Image;
  img_Read : Image -> option error;
  fmt_plus_v : error -> string
}.

(** The [switch source] of [GetImageFromSource] with the [provider.Provide()]
    that follows it; [None] is the [default] branch. *)
Definition provider (h : Host) (pv : Providers) (input : string)
  (source : Source) (registryOptions : option RegistryOptions)
  : option (M Image) :=
  match source with
  | DockerTarballSource =>
      Some (modify (hand_off (input, [], [])) ;;;
            call (tarball_Provide h input [] []) (fun e => e))
  | DockerDaemonSource => Some (Provide h input)
  | OciDirectorySource =>
      Some (call (oci_NewProviderFromPath pv input) (fun e => e))
  | OciTarballSource =>
      Some (call (oci_NewProviderFromTarball pv input) (fun e => e))
  | OciRegistrySource =>
      Some (call (oci_NewProviderFromRegistry pv input registryOptions)
              (fun e => e))
  | UnknownSource => None
  end.

Definition GetImageFromSource (h : Host) (pv : Providers) (input : string)
  (source : Source) (registryOptions : option RegistryOptions) (s : State)
  : State * (option Image * CleanupFn * option error) :=
  match provider h pv input source registryOptions with
  | None =>
      (s, (None, GeneratorCleanup,
           Some (ErrNew "unable determine image source")))
  | Some provide =>
      match provide s with
      | (s', Err err) => (s', (None, GeneratorCleanup, Some err))
      | (s', Ok img) =>
          match img_Read pv img with
          | Some err =>
              (s', (None, GeneratorCleanup,
                    Some (ErrNew ("could not read image: "
                                  ++ fmt_plus_v pv err))))
          | None => (s', (Some img, GeneratorCleanup, None))
          end
      end
  end.

Definition GetImage (w : World) (h : Host) (pv : Providers)
  (userStr : string) (registryOptions : option RegistryOptions) (s : State)
  : State * (option Image * CleanupFn * option error) :=
  match detectSource w userStr with
  | (_, _, Some err) => (s, (None, NoCleanup, Some err))
  | (source, input, None) =>
      GetImageFromSource h pv input source registryOptions s
  end.

End Client.

(** *** More sample environments *)

Module SampleMore.

(** A docker archive stored under the name alpine, which is an image
    reference as well, next to a daemon that answers. *)
Definition w_shadow : World :=
  Sample.world [("alpine", inr [TarHeader "manifest.json";
                                TarHeader "layer.tar"])]
               ["alpine"] None (Ok {| APIVersion := "1.41" |}).

(** An empty file, and an archive that breaks after its oci-layout. *)
Definition w_files : World :=
  Sample.world [("empty.tar", inr []);
                ("broken.tar", inr [TarHeader "oci-layout";
                                    TarFault (ErrNew "unexpected EOF");
                                    TarHeader "manifest.json"])]
               [] None Sample.no_daemon.

(** Providers that read every image, and providers whose read misses a
    layer. *)
Definition pv_reads : Client.Providers :=
  {| Client.oci_NewProviderFromPath := fun _ => Err (ErrNew "no OCI layout");
     Client.oci_NewProviderFromTarball := fun _ => Err (ErrNew "no OCI archive");
     Client.oci_NewProviderFromRegistry := fun _ _ => Err (ErrNew "no registry");
     Client.img_Read := fun _ => None;
     Client.fmt_plus_v := fun _ => "read failed" |}.

Definition pv_unreadable : Client.Providers :=
  {| Client.oci_NewProviderFromPath := fun _ => Ok {| image_handle := 7 |};
     Client.oci_NewProviderFromTarball := fun _ => Ok {| image_handle := 8 |};
     Client.oci_NewProviderFromRegistry := fun _ _ => Ok {| image_handle := 9 |};
     Client.img_Read := fun _ => Some (ErrFileNotFound "layer.tar");
     Client.fmt_plus_v := fun _ => "file not found: layer.tar" |}.

End SampleMore.

(** Unfold the state and error passing of a Go function body. *)
Ltac run_go :=
  unfold call, must, rewrap, defer, modify, get, bind, ret, fail in *;
  simpl in *.

(** ** Facts about the string functions *)

Section StringFacts.

Lemma append_assoc_str (a b c : string) : (a ++ b) ++ c = a ++ b ++ c.
Proof.
  induction a as [|x a IH]; simpl; [reflexivity | now rewrite IH].
Qed.

Lemma prefix_append (p t : string) : prefix p (p ++ t) = true.
Proof.
  induction p as [|x p IH]; simpl.
  - now destruct t.
  - destruct (ascii_dec x x) as [_|N]; [exact IH | now elim N].
Qed.

Lemma prefix_weaken (p s t : string) :
  prefix p s = true -> prefix p (s ++ t) = true.
Proof.
  revert s; induction p as [|x p IH]; intros s H; simpl in *.
  - now destruct (s ++ t).
  - destruct s as [|y s]; simpl in *; [discriminate|].
    destruct (ascii_dec x y); [now apply IH | discriminate].
Qed.

Lemma drop_append (p t : string) : drop (String.length p) (p ++ t) = t.
Proof.
  induction p as [|x p IH]; simpl; [now destruct t | exact IH].
Qed.

Lemma prefix_split (p s : string) :
  prefix p s = true -> s = p ++ drop (String.length p) s.
Proof.
  revert s; induction p as [|x p IH]; intros s H; simpl in *.
  - now destruct s.
  - destruct s as [|y s]; simpl in H; [discriminate|].
    destruct (ascii_dec x y) as [->|]; [|discriminate].
    simpl. f_equal. now apply IH.
Qed.

Lemma Cut_eq (sep s : string) :
  Cut sep s =
  if prefix sep s then Some (EmptyString, drop (String.length sep) s)
  else match s with
       | EmptyString => None
       | String c r =>
           match Cut sep r with
           | Some (before, after) => Some (String c before, after)
           | None => None
           end
       end.
Proof. destruct s; reflexivity. Qed.

(** A cut takes the string apart around the separator. *)
Lemma Cut_Some (sep s before after : string) :
  Cut sep s = Some (before, after) -> s = before ++ sep ++ after.
Proof.
  revert before; induction s as [|c r IH]; intros before H;
    rewrite Cut_eq in H.
  - destruct (prefix sep "") eqn:P; [|discriminate].
    injection H as <- <-. simpl. now apply prefix_split.
  - destruct (prefix sep (String c r)) eqn:P.
    + injection H as <- <-. simpl. now apply prefix_split.
    + destruct (Cut sep r) as [[b a]|] eqn:C; [|discriminate].
      injection H as <- <-. simpl. f_equal. now apply IH.
Qed.

(** The cut is at the first occurrence: no separator before it. *)
Lemma Cut_first (sep s before after : string) :
  sep <> "" -> Cut sep s = Some (before, after) -> Cut sep before = None.
Proof.
  intros Hsep. revert before; induction s as [|c r IH]; intros before H;
    rewrite Cut_eq in H.
  - destruct sep; [now elim Hsep | discriminate].
  - destruct (prefix sep (String c r)) eqn:P.
    + injection H as <- <-. rewrite Cut_eq.
      destruct sep; [now elim Hsep | reflexivity].
    + destruct (Cut sep r) as [[b a]|] eqn:C; [|discriminate].
      injection H as <- <-. rewrite Cut_eq.
      destruct (prefix sep (String c b)) eqn:Q.
      * apply (prefix_weaken _ _ (sep ++ a)) in Q.
        change (prefix sep (String c (b ++ sep ++ a)) = true) in Q.
        rewrite <- (Cut_Some _ _ _ _ C) in Q. congruence.
      * now rewrite (IH b eq_refl).
Qed.

Lemma TrimPrefix_Cut (sep s before after : string) :
  Cut sep s = Some (before, after) -> TrimPrefix s (before ++ sep) = after.
Proof.
  intros H. apply Cut_Some in H. subst s.
  unfold TrimPrefix, HasPrefix.
  rewrite <- append_assoc_str, prefix_append. apply drop_append.
Qed.

Lemma SplitN2_two (s sep hint rest : string) :
  SplitN2 s sep = [hint; rest] -> Cut sep s = Some (hint, rest).
Proof.
  unfold SplitN2. destruct (Cut sep s) as [[b a]|]; [|discriminate].
  now intros [= -> ->].
Qed.

Lemma SplitN2_one (s sep x : string) :
  SplitN2 s sep = [x] -> Cut sep s = None /\ x = s.
Proof.
  unfold SplitN2. destruct (Cut sep s) as [[b a]|]; [discriminate|].
  now intros [= ->].
Qed.

End StringFacts.

(** ** Source detection *)

Section Detection.

Lemma ParseSourceScheme_vocabulary (hint : string) :
  ParseSourceScheme hint <> UnknownSource <->
  In (ToLower hint, ParseSourceScheme hint) vocabulary.
Proof.
  unfold ParseSourceScheme, vocabulary. cbv zeta.
  repeat match goal with
         | |- context [String.eqb ?a ?b] =>
             destruct (String.eqb_spec a b) as [->|]
         end; simpl; split; intros H; try congruence; auto 10.
  exfalso. repeat (destruct H as [H|H]; [discriminate H|]). exact H.
Qed.

Lemma DetermineImagePullSource_Unknown (w : World) (u : string) :
  isRegistryReference w u = false ->
  DetermineImagePullSource w u = UnknownSource.
Proof. unfold DetermineImagePullSource. now intros ->. Qed.

Lemma DetermineImagePullSource_known (w : World) (u : string) :
  isRegistryReference w u = true ->
  Source_eqb (DetermineImagePullSource w u) UnknownSource = false.
Proof.
  unfold DetermineImagePullSource. intros ->. simpl.
  destruct (docker_GetClient w); [reflexivity|].
  destruct (client_Ping w) as [pong|]; [|reflexivity].
  now destruct (APIVersion pong =? "").
Qed.

(** The second switch on a source that is still unknown. *)
Lemma detectSource_resolve_Unknown (w : World) (u location : string) :
  detectSource_resolve w u UnknownSource location =
  if isRegistryReference w u then (DetermineImagePullSource w u, u, None)
  else (UnknownSource, "", None).
Proof.
  unfold detectSource_resolve.
  destruct (isRegistryReference w u) eqn:R.
  - now rewrite DetermineImagePullSource_known.
  - now rewrite DetermineImagePullSource_Unknown.
Qed.

Lemma scanTar_member (items : list tar_item) (name : string) (pos : nat) :
  In name (members items) -> exists pos', scanTar items name pos = (pos', None).
Proof.
  revert pos; induction items as [|[n|e] items IH]; intros pos H; simpl in *.
  - contradiction.
  - destruct (String.eqb_spec n name) as [|N]; [now eexists|].
    destruct H as [H|H]; [contradiction|]. now apply IH.
  - contradiction.
Qed.

(** A string without separator takes the first switch's case 1: the
    specification's [detect_without_hint] is what the code does there. *)
Lemma detectSource_no_separator (w : World) (u : string) :
  Cut SchemeSeparator u = None -> detectSource w u = detect_without_hint w u.
Proof.
  intros H. unfold detectSource, detectSource_candidates, SplitN2,
    detect_without_hint. rewrite H.
  now destruct (detectSourceFromPath w u) as [source [err|]].
Qed.

(** C3: on a string that parses as a weakly valid image reference,
    [DetermineImagePullSource] returns [DockerDaemonSource] when the daemon
    answers the ping, without error and with a non-empty API version, and
    [OciRegistrySource] in every other case; on a string that fails weak
    validation it returns [UnknownSource]. *)
Theorem DetermineImagePullSource_spec (w : World) (userInput : string) :
  (isRegistryReference w userInput = true ->
   daemon_answers w ->
   DetermineImagePullSource w userInput = DockerDaemonSource) /\
  (isRegistryReference w userInput = true ->
   ~ daemon_answers w ->
   DetermineImagePullSource w userInput = OciRegistrySource) /\
  (isRegistryReference w userInput = false ->
   DetermineImagePullSource w userInput = UnknownSource).
Proof.
  unfold DetermineImagePullSource, daemon_answers.
  repeat split.
  - intros -> [C [pong [P V]]]. rewrite C, P. simpl.
    destruct (String.eqb_spec (APIVersion pong) ""); [contradiction|reflexivity].
  - intros -> N. simpl.
    destruct (docker_GetClient w) as [e|] eqn:C; [reflexivity|].
    destruct (client_Ping w) as [pong|e] eqn:P; [|reflexivity].
    destruct (String.eqb_spec (APIVersion pong) "") as [|V]; [reflexivity|].
    elim N. split; [reflexivity|]. now exists pong.
  - now intros ->.
Qed.

Lemma DetermineImagePullSource_spec_witness :
  DetermineImagePullSource Sample.w_daemon "alpine" = DockerDaemonSource /\
  DetermineImagePullSource Sample.w_alpine "alpine" = OciRegistrySource /\
  DetermineImagePullSource Sample.w_alpine "Alpine" = UnknownSource.
Proof.
  split; [|split].
  - apply (proj1 (DetermineImagePullSource_spec Sample.w_daemon "alpine")).
    + reflexivity.
    + split; [reflexivity|].
      exists {| APIVersion := "1.41" |}. split; [reflexivity|discriminate].
  - apply (proj1 (proj2 (DetermineImagePullSource_spec Sample.w_alpine "alpine"))).
    + reflexivity.
    + intros [_ [pong [P _]]]. discriminate P.
  - apply (proj2 (proj2 (DetermineImagePullSource_spec Sample.w_alpine "Alpine"))).
    reflexivity.
Defined.

(** C2: an archive file whose members include manifest.json is detected as
    [DockerTarballSource], also when oci-layout is a member too and wherever
    the two stand in the archive and wherever the reader stood: manifest.json
    is looked up first, from the start of the archive. *)
Theorem detectSourceFromPath_manifest_first
  (w : World) (imgPath expanded : string) (info : FileInfo) (archive : File) :
  homedir_Expand w imgPath = Ok expanded ->
  fs_Stat w expanded = Ok info ->
  IsDir info = false ->
  fs_Open w expanded = Ok archive ->
  f_seek_fault archive = None ->
  In "manifest.json" (members (f_items archive)) ->
  In "oci-layout" (members (f_items archive)) ->
  detectSourceFromPath w imgPath = (DockerTarballSource, None).
Proof.
  intros E S D O K M _. unfold detectSourceFromPath.
  rewrite E, S, D, O. simpl. unfold Seek0. rewrite K.
  unfold ReaderFromTar. simpl.
  destruct (scanTar_member _ _ 0 M) as [pos' ->]. reflexivity.
Qed.

Lemma detectSourceFromPath_manifest_first_witness :
  In "oci-layout" (members [TarHeader "oci-layout"; TarHeader "index.json";
                            TarHeader "manifest.json"]) /\
  detectSourceFromPath Sample.w_both "img.tar" = (DockerTarballSource, None).
Proof.
  split; [now left|].
  apply (detectSourceFromPath_manifest_first Sample.w_both "img.tar" "img.tar"
           {| IsDir := false |}
           {| f_items := [TarHeader "oci-layout"; TarHeader "index.json";
                          TarHeader "manifest.json"];
              f_pos := 0; f_seek_fault := None |});
    try reflexivity; simpl; auto.
Defined.

Lemma scanTar_absent (items : list tar_item) (name : string) (pos : nat) :
  ~ In name (members items) ->
  (forall e, ~ In (TarFault e) items) ->
  scanTar items name pos
  = (pos + List.length items, Some (ErrFileNotFound name)).
Proof.
  revert pos; induction items as [|[n|e] items IH]; intros pos A F; simpl in *.
  - now rewrite Nat.add_0_r.
  - destruct (String.eqb_spec n name) as [->|N]; [elim A; now left|].
    rewrite IH; [f_equal; lia| tauto |].
    intros e H. apply (F e). now right.
  - elim (F e). now left.
Qed.

(** The second lookup starts from the start of the archive again: an
    archive without manifest.json is an OCI archive wherever oci-layout
    stands in it, though the first lookup read the archive to its end. *)
Lemma detectSourceFromPath_oci_layout
  (w : World) (imgPath expanded : string) (info : FileInfo) (archive : File) :
  homedir_Expand w imgPath = Ok expanded ->
  fs_Stat w expanded = Ok info ->
  IsDir info = false ->
  fs_Open w expanded = Ok archive ->
  f_seek_fault archive = None ->
  (forall e, ~ In (TarFault e) (f_items archive)) ->
  ~ In "manifest.json" (members (f_items archive)) ->
  In "oci-layout" (members (f_items archive)) ->
  detectSourceFromPath w imgPath = (OciTarballSource, None).
Proof.
  intros E S D O K F M L. unfold detectSourceFromPath.
  rewrite E, S, D, O. simpl. unfold Seek0. rewrite K.
  unfold ReaderFromTar. simpl.
  rewrite (scanTar_absent _ _ 0 M F). simpl.
  destruct (scanTar_member _ _ 0 L) as [pos' ->]. reflexivity.
Qed.

(** C10: on a directory, [detectSourceFromPath] answers
    [OciDirectorySource] whenever the stat of the child oci-layout returns
    anything but a not-exist error, a permission error included, and
    [UnknownSource] on a not-exist error; neither case is an error. *)
Theorem detectSourceFromPath_directory
  (w : World) (imgPath expanded : string) (info : FileInfo) :
  homedir_Expand w imgPath = Ok expanded ->
  fs_Stat w expanded = Ok info ->
  IsDir info = true ->
  let child := fs_Stat w (path_Join w expanded "oci-layout") in
  ((forall q, child <> Err (ErrNotExist q)) ->
   detectSourceFromPath w imgPath = (OciDirectorySource, None)) /\
  (forall q, child = Err (ErrPermission q) ->
   detectSourceFromPath w imgPath = (OciDirectorySource, None)) /\
  (forall q, child = Err (ErrNotExist q) ->
   detectSourceFromPath w imgPath = (UnknownSource, None)).
Proof.
  intros E S D child. unfold detectSourceFromPath. rewrite E, S, D.
  fold child. repeat split.
  - intros N. destruct child as [i|e]; [reflexivity|].
    destruct e; try reflexivity. now elim (N path).
  - now intros q ->.
  - now intros q ->.
Qed.

Lemma detectSourceFromPath_directory_witness :
  fs_Stat Sample.w_denied "layout/oci-layout"
    = Err (ErrPermission "layout/oci-layout") /\
  detectSourceFromPath Sample.w_denied "layout" = (OciDirectorySource, None).
Proof.
  split; [reflexivity|].
  apply (proj1 (proj2 (detectSourceFromPath_directory Sample.w_denied
           "layout" "layout" {| IsDir := true |}
           eq_refl eq_refl eq_refl)) "layout/oci-layout").
  reflexivity.
Defined.

(** C1, as stated, fails: bogus:thing has an unrecognized hint; where a
    directory of that name (or one named thing) is an OCI layout, detection
    without hint answers [OciDirectorySource] from the filesystem probe,
    while [detectSource] never looks at the filesystem and answers from the
    reference probe alone. *)
Lemma unrecognized_hint_skips_filesystem_probe :
  SplitN2 "bogus:thing" SchemeSeparator = ["bogus"; "thing"] /\
  ParseSourceScheme "bogus" = UnknownSource /\
  detectSource Sample.w_bogus "bogus:thing"
    = (OciRegistrySource, "bogus:thing", None) /\
  detect_without_hint Sample.w_bogus "bogus:thing"
    = (OciDirectorySource, "bogus:thing", None) /\
  detect_without_hint Sample.w_bogus "thing"
    = (OciDirectorySource, "thing", None) /\
  detectSource Sample.w_bogus "bogus:thing"
    <> detect_without_hint Sample.w_bogus "bogus:thing" /\
  detectSource Sample.w_bogus "bogus:thing"
    <> detect_without_hint Sample.w_bogus "thing".
Proof. repeat split; try reflexivity; vm_compute; discriminate. Qed.

(** C1, amended: on a string hint:rest whose hint is not in the scheme
    vocabulary, [detectSource] skips the filesystem probe and goes to the
    registry-reference probe on the whole string, prefix included: a weakly
    valid reference gives the pull source with the whole string as location,
    anything else gives [UnknownSource] with an empty location; the
    filesystem and the home directory have no part in the answer. *)
Theorem detectSource_unrecognized_hint
  (w : World) (userInput hint rest : string) :
  SplitN2 userInput SchemeSeparator = [hint; rest] ->
  ParseSourceScheme hint = UnknownSource ->
  detectSource w userInput =
    (if isRegistryReference w userInput
     then (DetermineImagePullSource w userInput, userInput, None)
     else (UnknownSource, "", None)) /\
  forall stat open expand,
    detectSource (with_fs w stat open expand) userInput
    = detectSource w userInput.
Proof.
  intros Hs Hp.
  assert (G : forall w', detectSource w' userInput =
                         if isRegistryReference w' userInput
                         then (DetermineImagePullSource w' userInput,
                               userInput, None)
                         else (UnknownSource, "", None)).
  { intros w'. unfold detectSource, detectSource_candidates.
    rewrite Hs, Hp. apply detectSource_resolve_Unknown. }
  split; [apply G|].
  intros stat open expand. rewrite !G. reflexivity.
Qed.

Lemma detectSource_unrecognized_hint_witness :
  detectSource Sample.w_bogus "bogus:thing"
    = (OciRegistrySource, "bogus:thing", None).
Proof.
  exact (proj1 (detectSource_unrecognized_hint Sample.w_bogus "bogus:thing"
                  "bogus" "thing" eq_refl eq_refl)).
Defined.

(** C7, as stated, fails: no path named alpine exists, yet detection on
    alpine answers a registry source with alpine as location, because the
    string is an image reference. *)
Lemma missing_path_detected_as_reference :
  fs_Stat Sample.w_alpine "alpine" = Err (ErrNotExist "alpine") /\
  detectSourceFromPath Sample.w_alpine "alpine" = (UnknownSource, None) /\
  detectSource Sample.w_alpine "alpine" = (OciRegistrySource, "alpine", None) /\
  detectSource Sample.w_alpine "alpine" <> (UnknownSource, "", None).
Proof. repeat split; try reflexivity; vm_compute; discriminate. Qed.

(** C7, amended: for a path that does not exist (its home-directory
    expansion done), the filesystem probe [detectSourceFromPath] returns
    [UnknownSource] and no error; [detectSource] on such a string without
    separator then returns [UnknownSource], an empty location and no error
    when the string is not a weakly valid image reference either, and
    otherwise the pull source with the string as location. *)
Theorem detectSourceFromPath_missing
  (w : World) (imgPath expanded missing : string) :
  homedir_Expand w imgPath = Ok expanded ->
  fs_Stat w expanded = Err (ErrNotExist missing) ->
  detectSourceFromPath w imgPath = (UnknownSource, None) /\
  (Cut SchemeSeparator imgPath = None ->
   detectSource w imgPath =
     if isRegistryReference w imgPath
     then (DetermineImagePullSource w imgPath, imgPath, None)
     else (UnknownSource, "", None)).
Proof.
  intros E S.
  assert (P : detectSourceFromPath w imgPath = (UnknownSource, None)).
  { unfold detectSourceFromPath. now rewrite E, S. }
  split; [exact P|].
  intros C. rewrite (detectSource_no_separator _ _ C).
  unfold detect_without_hint. rewrite P.
  apply detectSource_resolve_Unknown.
Qed.

Lemma detectSourceFromPath_missing_witness :
  detectSourceFromPath Sample.w_alpine "Alpine" = (UnknownSource, None) /\
  detectSource Sample.w_alpine "Alpine" = (UnknownSource, "", None).
Proof.
  pose proof (detectSourceFromPath_missing Sample.w_alpine "Alpine" "Alpine"
                "Alpine" eq_refl eq_refl) as [P D].
  split; [exact P | exact (D eq_refl)].
Defined.

(** C8, as stated, fails: oci-dir is in the vocabulary, and the location
    resolved for oci-dir:~/img is the expanded /home/user/img, not the
    remainder ~/img. *)
Lemma path_scheme_location_is_expanded :
  SplitN2 "oci-dir:~/img" SchemeSeparator = ["oci-dir"; "~/img"] /\
  ParseSourceScheme "oci-dir" = OciDirectorySource /\
  detectSource Sample.w_alpine "oci-dir:~/img"
    = (OciDirectorySource, "/home/user/img", None) /\
  snd (fst (detectSource Sample.w_alpine "oci-dir:~/img")) <> "~/img".
Proof. repeat split; try reflexivity; vm_compute; discriminate. Qed.

(** C8, amended: when the token before the first separator is in the scheme
    vocabulary (in any letter case), the location the split leaves is the
    input with exactly that token and one separator removed from its front,
    the remainder verbatim, further separators included.  [detectSource]
    returns that location as it is for the docker and registry schemes; for
    the three path-based schemes it returns its home-directory expansion
    (the same string when the expansion changes nothing), and the expansion
    error with an empty location when that fails. *)
Theorem detectSource_hint_location
  (w : World) (userInput hint rest : string) :
  SplitN2 userInput SchemeSeparator = [hint; rest] ->
  ParseSourceScheme hint <> UnknownSource ->
  let source := ParseSourceScheme hint in
  userInput = hint ++ SchemeSeparator ++ rest /\
  Cut SchemeSeparator hint = None /\
  In (ToLower hint, source) vocabulary /\
  detectSource_candidates w userInput = Ok (source, rest) /\
  detectSource w userInput =
    (if path_based source then
       match homedir_Expand w rest with
       | Ok location => (source, location, None)
       | Err e =>
           (UnknownSource, "",
            Some (ErrWrap "unable to expand potential home dir expression" e))
       end
     else (source, rest, None)).
Proof.
  intros Hs Hp source.
  pose proof (SplitN2_two _ _ _ _ Hs) as C.
  assert (K : detectSource_candidates w userInput = Ok (source, rest)).
  { unfold detectSource_candidates. rewrite Hs.
    now rewrite (TrimPrefix_Cut _ _ _ _ C). }
  repeat split.
  - now apply Cut_Some.
  - apply (Cut_first SchemeSeparator userInput hint rest); [discriminate|exact C].
  - now apply ParseSourceScheme_vocabulary.
  - exact K.
  - unfold detectSource. rewrite K. unfold detectSource_resolve.
    fold source in Hp. destruct source; try reflexivity. now elim Hp.
Qed.

Lemma detectSource_hint_location_witness :
  detectSource Sample.w_alpine "OCI-Archive:/a:b:c"
    = (OciTarballSource, "/a:b:c", None) /\
  detectSource Sample.w_alpine "docker:~/a:b:c"
    = (DockerDaemonSource, "~/a:b:c", None).
Proof.
  split.
  - refine (proj2 (proj2 (proj2 (proj2
      (detectSource_hint_location Sample.w_alpine "OCI-Archive:/a:b:c"
         "OCI-Archive" "/a:b:c" eq_refl _))))).
    discriminate.
  - refine (proj2 (proj2 (proj2 (proj2
      (detectSource_hint_location Sample.w_alpine "docker:~/a:b:c"
         "docker" "~/a:b:c" eq_refl _))))).
    discriminate.
Defined.

End Detection.

(** ** The daemon provider *)

Section PullFacts.

Lemma forwarded_cons (ev : pullEvent) (rest : list decode_step) :
  forwarded (Decoded ev :: rest) =
  if summary_line ev then forwarded rest else ev :: forwarded rest.
Proof. unfold forwarded. simpl. now destruct (summary_line ev). Qed.

(** The loop: what reaches the status record, what is returned, and what is
    left alone. *)
Lemma pull_loop_run (resp : list decode_step) (s : State) :
  st_status (fst (pull_loop resp s)) =
    match st_status s with
    | Some p => Some {| ps_events := (ps_events p ++ forwarded resp)%list;
                        complete := complete p |}
    | None => None
    end /\
  snd (pull_loop resp s) =
    match decode_fault resp with
    | None => Ok tt
    | Some err => Err (ErrWrap "failed to pull image" err)
    end /\
  st_stage (fst (pull_loop resp s)) = st_stage s /\
  st_handoff (fst (pull_loop resp s)) = st_handoff s /\
  st_local (fst (pull_loop resp s)) = st_local s.
Proof.
  revert s. induction resp as [|[ev|err] rest IH]; intros s.
  - simpl. unfold forwarded. simpl.
    destruct (st_status s) as [[evs c]|]; simpl; rewrite ?app_nil_r; auto.
  - change (pull_loop (Decoded ev :: rest))
      with (if summary_line ev then pull_loop rest
            else modify (with_status (onEvent ev)) ;;; pull_loop rest).
    rewrite forwarded_cons.
    destruct (summary_line ev); [apply IH|].
    run_go. destruct (IH (with_status (onEvent ev) s)) as (A & B & C & D & E).
    rewrite A, B, C, D, E. simpl.
    destruct (st_status s) as [[evs c]|]; simpl; rewrite <- ?app_assoc; auto.
  - simpl. unfold forwarded. simpl.
    destruct (st_status s) as [[evs c]|]; simpl; rewrite ?app_nil_r; auto.
Qed.

End PullFacts.

Section ProviderFacts.

Variable h : Host.
Variable imageStr : string.

Lemma pull_frame (s : State) :
  st_stage (fst (pull h imageStr s)) = st_stage s /\
  st_handoff (fst (pull h imageStr s)) = st_handoff s.
Proof.
  unfold pull. run_go.
  destruct (config_Load h) as [cfg|e]; simpl; [|auto].
  destruct (host_GetClient h); simpl; [auto|].
  destruct (newPullOptions h imageStr cfg) as [options|e]; simpl; [|auto].
  destruct (client_ImagePull h imageStr options) as [resp|e]; simpl; [|auto].
  match goal with
  | |- context [pull_loop ?r ?s0] =>
      destruct (pull_loop_run r s0) as (_ & _ & C & D & _);
      destruct (pull_loop r s0) as [s1 [[]|e]]
  end; simpl in *; auto.
Qed.

(** C5: once the pull response is open, the status record receives, in
    order, exactly the decoded events whose status begins with neither
    Digest: nor Status:, up to the end of the stream or the first decode
    error; a clean end of stream returns no error and a decode error is
    returned as failure; and whatever the outcome after the record was
    created, its terminal flag is set when [pull] returns. *)
Theorem pull_forwards_and_completes (s : State) (cfg : ConfigFile) :
  config_Load h = Ok cfg ->
  (exists p,
     st_status (fst (pull h imageStr s)) = Some p /\ complete p = true) /\
  (forall options resp,
     host_GetClient h = None ->
     newPullOptions h imageStr cfg = Ok options ->
     client_ImagePull h imageStr options = Ok resp ->
     st_status (fst (pull h imageStr s)) =
       Some {| ps_events := forwarded (pr_stream resp); complete := true |} /\
     (forall ev,
        In ev (forwarded (pr_stream resp)) <->
        In ev (decoded (pr_stream resp)) /\
        HasPrefix (Status ev) "Digest:" = false /\
        HasPrefix (Status ev) "Status:" = false) /\
     snd (pull h imageStr s) =
       match decode_fault (pr_stream resp) with
       | None => Ok tt
       | Some err => Err (ErrWrap "failed to pull image" err)
       end).
Proof.
  intros L. split.
  - unfold pull. run_go. rewrite L. simpl.
    destruct (host_GetClient h); simpl; [eauto|].
    destruct (newPullOptions h imageStr cfg) as [options|e]; simpl; [|eauto].
    destruct (client_ImagePull h imageStr options) as [resp|e]; simpl; [|eauto].
    match goal with
    | |- context [pull_loop ?r ?s0] =>
        destruct (pull_loop_run r s0) as (A & _);
        destruct (pull_loop r s0) as [s1 [[]|e]]
    end; simpl in *; rewrite A; simpl; eauto.
  - intros options resp G O P. split; [|split].
    + unfold pull. run_go. rewrite L. simpl. rewrite G. simpl.
      rewrite O. simpl. rewrite P. simpl.
      match goal with
      | |- context [pull_loop ?r ?s0] =>
          destruct (pull_loop_run r s0) as (A & _);
          destruct (pull_loop r s0) as [s1 [[]|e]]
      end; simpl in *; rewrite A; reflexivity.
    + intros ev. unfold forwarded. rewrite filter_In. unfold summary_line.
      rewrite negb_true_iff, orb_false_iff. tauto.
    + unfold pull. run_go. rewrite L. simpl. rewrite G. simpl.
      rewrite O. simpl. rewrite P. simpl.
      match goal with
      | |- context [pull_loop ?r ?s0] =>
          destruct (pull_loop_run r s0) as (_ & B & _);
          destruct (pull_loop r s0) as [s1 [[]|e]]
      end; simpl in *; rewrite <- B; reflexivity.
Qed.

Lemma trackSaveProgress_run (s : State) :
  st_stage (fst (trackSaveProgress h imageStr s)) = st_stage s /\
  st_handoff (fst (trackSaveProgress h imageStr s)) = st_handoff s /\
  st_local (fst (trackSaveProgress h imageStr s)) = st_local s /\
  (snd (trackSaveProgress h imageStr s) = Ok tt ->
   inspect_fault h = None /\ exists stored, st_local s = Some stored).
Proof.
  unfold trackSaveProgress, ImageInspectWithRaw. run_go.
  destruct (host_GetClient h); simpl;
    [repeat split; try reflexivity; discriminate|].
  destruct (inspect_fault h); simpl;
    [repeat split; try reflexivity; discriminate|].
  destruct (st_local s) as [stored|] eqn:L; simpl.
  - repeat split; eauto.
  - repeat split; auto; discriminate.
Qed.

Lemma Provide_inspect_run (s : State) :
  st_stage (fst (Provide_inspect h imageStr s)) = st_stage s /\
  st_handoff (fst (Provide_inspect h imageStr s)) = st_handoff s /\
  (forall inspectResult,
     snd (Provide_inspect h imageStr s) = Ok inspectResult ->
     inspect_fault h = None ->
     inspectResult = first_inspection (st_local s) /\
     forall stored,
       st_local s = Some stored ->
       st_local (fst (Provide_inspect h imageStr s)) = Some stored).
Proof.
  unfold Provide_inspect, ImageInspectWithRaw. run_go.
  destruct (inspect_fault h) as [e|]; simpl.
  - destruct (client_IsErrNotFound e); simpl.
    + destruct (pull_frame s) as [A B].
      destruct (pull h imageStr s) as [s1 [[]|e1]]; simpl in *;
        repeat split; auto; discriminate.
    + repeat split; discriminate.
  - destruct (st_local s) as [stored|] eqn:L; simpl.
    + repeat split; auto; [congruence|].
      intros stored' [= <-]. exact L.
    + destruct (pull_frame s) as [A B].
      destruct (pull h imageStr s) as [s1 [[]|e1]]; simpl in *;
        repeat split; auto; try discriminate; congruence.
Qed.

Lemma Provide_copy_run (tempTarFile : string) (inspectResult : ImageInspect)
  (readCloser : ReadCloser) (s : State) :
  let run := Provide_copy h tempTarFile inspectResult readCloser s in
  st_stage (fst run) = (st_stage s ++ [saving])%list /\
  st_local (fst run) = st_local s /\
  copy_outcome h tempTarFile inspectResult readCloser
    (st_handoff s) (snd run) (st_handoff (fst run)).
Proof.
  unfold Provide_copy, copy_outcome. run_go.
  destruct (rc_fault readCloser); simpl; [auto|].
  destruct (rc_bytes readCloser =? 0)%Z; simpl; [auto|].
  destruct (tarball_Provide h tempTarFile (RepoTags inspectResult)
              (RepoDigests inspectResult)); simpl; auto.
Qed.

(** The three ways the second half of [Provide] can go. *)
Lemma Provide_save_run (tempTarFile : string) (inspectResult : ImageInspect)
  (s : State) :
  let run := Provide_save h imageStr tempTarFile inspectResult s in
  (st_stage (fst run) = st_stage s /\ st_handoff (fst run) = st_handoff s /\
   exists e, snd run = Err e) \/
  (exists e,
     client_ImageSave h imageStr = Err e /\
     st_stage (fst run) = (st_stage s ++ [requesting])%list /\
     st_handoff (fst run) = st_handoff s /\
     snd run = Err (ErrWrap "unable to save image tar" e)) \/
  (exists readCloser stored,
     client_ImageSave h imageStr = Ok readCloser /\
     inspect_fault h = None /\
     st_local s = Some stored /\
     st_local (fst run) = Some stored /\
     st_stage (fst run) = (st_stage s ++ [requesting; saving])%list /\
     copy_outcome h tempTarFile inspectResult readCloser
       (st_handoff s) (snd run) (st_handoff (fst run))).
Proof.
  unfold Provide_save. run_go.
  destruct (trackSaveProgress_run s) as (A & B & C & D).
  destruct (trackSaveProgress h imageStr s) as [s1 [[]|e]]; simpl in *.
  - destruct (D eq_refl) as [F [stored L]].
    destruct (client_ImageSave h imageStr) as [readCloser|e]; simpl.
    + right; right. exists readCloser, stored.
      match goal with
      | |- context [Provide_copy _ ?t ?i ?r ?s0] =>
          destruct (Provide_copy_run t i r s0) as (P & Q & R);
          destruct (Provide_copy h t i r s0) as [s2 r2]
      end; simpl in *.
      rewrite P, Q, A, B in *. rewrite <- app_assoc. simpl.
      repeat split; auto; congruence.
    + right; left. exists e. rewrite A, B. auto.
  - left. eauto.
Qed.

(** The three ways [Provide] can go. *)
Lemma Provide_run (s : State) :
  let run := Provide h imageStr s in
  (st_stage (fst run) = st_stage s /\ st_handoff (fst run) = st_handoff s /\
   exists e, snd run = Err e) \/
  (exists e,
     client_ImageSave h imageStr = Err e /\
     st_stage (fst run) = (st_stage s ++ [requesting])%list /\
     st_handoff (fst run) = st_handoff s /\
     snd run = Err (ErrWrap "unable to save image tar" e)) \/
  (exists imageTempDir readCloser stored,
     tmpDirGen_NewTempDir h = Ok imageTempDir /\
     client_ImageSave h imageStr = Ok readCloser /\
     st_local (fst run) = Some stored /\
     (forall inspect, st_local s = Some inspect -> stored = inspect) /\
     st_stage (fst run) = (st_stage s ++ [requesting; saving])%list /\
     copy_outcome h (host_path_Join h imageTempDir "image.tar")
       (first_inspection (st_local s)) readCloser
       (st_handoff s) (snd run) (st_handoff (fst run))).
Proof.
  unfold Provide. run_go.
  destruct (tmpDirGen_NewTempDir h) as [imageTempDir|e]; simpl; [|left; eauto].
  destruct (os_Create h _); simpl; [left; eauto|].
  destruct (host_GetClient h); simpl; [left; eauto|].
  destruct (Provide_inspect_run s) as (A & B & C).
  destruct (Provide_inspect h imageStr s) as [s1 [inspectResult|e]];
    simpl in *; [|left; eauto].
  match goal with
  | |- context [Provide_save _ _ ?t ?i ?s0] =>
      destruct (Provide_save_run t i s0) as [(P & Q & e & R)|[(e & P)|P]];
      destruct (Provide_save h imageStr t i s0) as [s2 r2]
  end; simpl in *.
  - left. rewrite P, Q, A, B. eauto.
  - right; left. exists e. rewrite <- A, <- B. exact P.
  - right; right.
    destruct P as (readCloser & stored & S & F & L & L' & T & O).
    destruct (C inspectResult eq_refl F) as [-> K].
    exists imageTempDir, readCloser, stored.
    rewrite <- A, <- B. repeat split; auto.
    intros inspect E. specialize (K inspect E). congruence.
Qed.

(** C4: when the save stream closes cleanly without delivering a byte,
    [Provide] does not succeed; once the copy was made (the stage reached
    saving image to disk) its error is cannot provide an empty image; and
    the copy is made, with that error, whenever the steps before it go
    through on an image the daemon holds. *)
Theorem Provide_empty_image
  (local : option ImageInspect) (readCloser : ReadCloser) :
  client_ImageSave h imageStr = Ok readCloser ->
  rc_bytes readCloser = 0%Z ->
  rc_fault readCloser = None ->
  let run := Provide h imageStr (init local) in
  (forall image, snd run <> Ok image) /\
  (st_stage (fst run) = [requesting; saving] ->
   snd run = Err (ErrNew "cannot provide an empty image")) /\
  (forall imageTempDir inspect,
     tmpDirGen_NewTempDir h = Ok imageTempDir ->
     os_Create h (host_path_Join h imageTempDir "image.tar") = None ->
     host_GetClient h = None ->
     inspect_fault h = None ->
     local = Some inspect ->
     st_copied (fst run) = 0%Z /\
     snd run = Err (ErrNew "cannot provide an empty image")).
Proof.
  intros S Z F. cbv zeta. split; [|split].
  - pose proof (Provide_run (init local)) as PR. cbv zeta in PR.
    destruct PR
      as [(_ & _ & e & R)|[(e & S' & _ & _ & R)|(dir & rc & stored & _ & S' & _ & _ & _ & O)]];
      try (intros image; rewrite R; discriminate).
    assert (rc = readCloser) as -> by congruence.
    unfold copy_outcome in O. rewrite F, Z in O. simpl in O.
    destruct O as [R _]. intros image. rewrite R. discriminate.
  - pose proof (Provide_run (init local)) as PR. cbv zeta in PR.
    destruct PR
      as [(A & _ & e & R)|[(e & S' & _)|(dir & rc & stored & _ & S' & _ & _ & _ & O)]].
    + intros T. rewrite T in A. discriminate A.
    + congruence.
    + assert (rc = readCloser) as -> by congruence.
      unfold copy_outcome in O. rewrite F, Z in O. simpl in O.
      intros _. exact (proj1 O).
  - intros imageTempDir inspect D C G I ->.
    unfold Provide, Provide_inspect, Provide_save, Provide_copy,
      trackSaveProgress, ImageInspectWithRaw.
    run_go. rewrite D. simpl. rewrite C. simpl. rewrite G. simpl.
    rewrite I. simpl. rewrite S. simpl. rewrite F, Z. simpl.
    split; reflexivity.
Qed.


(** C9: on every successful run [Provide] hands the tarball provider the
    path of the saved archive and the tag and digest lists of
    [inspectResult], and returns that provider's result.  [inspectResult] is
    what the first inspection returned: on a run that had to pull, that
    inspection had failed, so the lists handed over are empty, whatever the
    record the daemon holds for the image after the pull. *)
Theorem Provide_hands_off_first_inspection
  (local : option ImageInspect) (image : Image) :
  let run := Provide h imageStr (init local) in
  snd run = Ok image ->
  exists imageTempDir stored,
    tmpDirGen_NewTempDir h = Ok imageTempDir /\
    let tempTarFile := host_path_Join h imageTempDir "image.tar" in
    let inspectResult := first_inspection local in
    st_handoff (fst run) =
      Some (tempTarFile, RepoTags inspectResult, RepoDigests inspectResult) /\
    tarball_Provide h tempTarFile (RepoTags inspectResult)
      (RepoDigests inspectResult) = Ok image /\
    st_local (fst run) = Some stored /\
    (local = None -> st_handoff (fst run) = Some (tempTarFile, [], [])).
Proof.
  cbv zeta. intros R.
  pose proof (Provide_run (init local)) as PR. cbv zeta in PR.
  destruct PR
    as [(_ & _ & e & R')|[(e & _ & _ & _ & R')|(dir & rc & stored & D & _ & L & _ & _ & O)]];
    try congruence.
  exists dir, stored. simpl in O. unfold copy_outcome in O.
  destruct (rc_fault rc); [destruct O; congruence|].
  destruct (rc_bytes rc =? 0)%Z; [destruct O; congruence|].
  destruct O as [O1 O2].
  repeat split; auto; try congruence.
  intros ->. exact O2.
Qed.

End ProviderFacts.

Lemma pull_forwards_and_completes_witness :
  let run := pull SampleHost.h_pull "alpine:latest" (init None) in
  st_status (fst run) =
    Some {| ps_events :=
              [{| ID := "latest"; Status := "Pulling from library/alpine" |};
               {| ID := "59bf1c3509f3"; Status := "Pulling fs layer" |};
               {| ID := "59bf1c3509f3"; Status := "Pull complete" |}];
            complete := true |} /\
  snd run = Ok tt.
Proof.
  destruct (pull_forwards_and_completes SampleHost.h_pull "alpine:latest"
              (init None) _ eq_refl) as [_ P].
  destruct (P {| RegistryAuth := "" |}
              {| pr_stream := SampleHost.stream;
                 pr_stored := Some SampleHost.alpine |}
              eq_refl eq_refl eq_refl) as (A & _ & B).
  split; [exact A | exact B].
Defined.

Lemma Provide_empty_image_witness :
  snd (Provide SampleHost.h_empty "alpine:latest"
         (init (Some SampleHost.alpine)))
  = Err (ErrNew "cannot provide an empty image").
Proof.
  apply (proj1 (proj2 (Provide_empty_image SampleHost.h_empty "alpine:latest"
           (Some SampleHost.alpine) {| rc_bytes := 0; rc_fault := None |}
           eq_refl eq_refl eq_refl))).
  reflexivity.
Defined.



Lemma Provide_hands_off_first_inspection_witness :
  let run := Provide SampleHost.h_pull "alpine:latest" (init None) in
  st_handoff (fst run) = Some ("/tmp/stereoscope-1/image.tar", [], []) /\
  st_local (fst run) = Some SampleHost.alpine /\
  RepoTags SampleHost.alpine = ["alpine:latest"].
Proof.
  destruct (Provide_hands_off_first_inspection SampleHost.h_pull
              "alpine:latest" None {| image_handle := 0 |} eq_refl)
    as (dir & stored & D & H & _ & _ & E).
  injection D as <-.
  split; [exact (E eq_refl)|]. split; reflexivity.
Defined.

(** ** Package [image], beyond the claims *)

Section ImageFacts.




(** X2: every source a caller can select has a scheme word, and the
    display name of a source is never one: what [String] prints cannot be
    fed back to [ParseSourceScheme]. *)
Theorem every_source_has_a_scheme_not_its_name (source : Source) :
  (In source AllSources ->
   exists word, In (word, source) vocabulary /\
                ParseSourceScheme word = source) /\
  ParseSourceScheme (Source_String source) = UnknownSource.
Proof.
  split.
  - intros H. destruct source; simpl in H;
      try (exfalso; intuition discriminate).
    + exists "docker-archive". split; [simpl; tauto | reflexivity].
    + exists "docker". split; [simpl; tauto | reflexivity].
    + exists "oci-dir". split; [simpl; tauto | reflexivity].
    + exists "oci-archive". split; [simpl; tauto | reflexivity].
    + exists "registry". split; [simpl; tauto | reflexivity].
  - destruct source; reflexivity.
Qed.

Lemma every_source_has_a_scheme_not_its_name_witness :
  exists word, In (word, OciRegistrySource) vocabulary /\
               ParseSourceScheme word = OciRegistrySource.
Proof.
  apply (proj1 (every_source_has_a_scheme_not_its_name OciRegistrySource)).
  simpl. tauto.
Defined.

(** X3: [String] never indexes [sourceStr] out of range, the table has one
    name per source and no more, and different sources print differently. *)
Theorem Source_String_in_range_and_injective (a b : Source) :
  Source_String_at a = Some (Source_String a) /\
  Source_ord a < List.length sourceStr /\
  List.length sourceStr = S (List.length AllSources) /\
  (Source_String a = Source_String b -> a = b).
Proof.
  repeat split.
  - destruct a; reflexivity.
  - destruct a; simpl; lia.
  - destruct a, b; simpl; intros H; try reflexivity; discriminate H.
Qed.


Lemma Source_String_in_range_and_injective_witness :
  Source_String_at OciTarballSource = Some "OciTarball".
Proof.
  exact (proj1 (Source_String_in_range_and_injective OciTarballSource
                  OciTarballSource)).
Defined.

(** The loop answers a source of its table, and none next to an error. *)
Lemma probeArchive_range (imgPath : string) (pairs : list (string * Source))
  (archive : File) :
  (fst (probeArchive imgPath archive pairs) = UnknownSource \/
   In (fst (probeArchive imgPath archive pairs)) (map snd pairs)) /\
  (snd (probeArchive imgPath archive pairs) <> None ->
   fst (probeArchive imgPath archive pairs) = UnknownSource).
Proof.
  revert archive. induction pairs as [|[p source] rest IH]; intros archive.
  - simpl. tauto.
  - simpl. destruct (Seek0 archive) as [a1 [e|]]; [simpl; tauto|].
    destruct (ReaderFromTar a1 p) as [a2 [e|]].
    + destruct (errors_As_ErrFileNotFound e); [|simpl; tauto].
      destruct (IH a2) as [A B]. tauto.
    + simpl. split; [tauto | congruence].
Qed.

Lemma detectSourceFromPath_shape (w : World) (imgPath : string) :
  (fst (detectSourceFromPath w imgPath) = UnknownSource \/
   path_based (fst (detectSourceFromPath w imgPath)) = true) /\
  (snd (detectSourceFromPath w imgPath) <> None ->
   fst (detectSourceFromPath w imgPath) = UnknownSource) /\
  (fst (detectSourceFromPath w imgPath) <> UnknownSource ->
   exists expanded, homedir_Expand w imgPath = Ok expanded).
Proof.
  unfold detectSourceFromPath.
  destruct (homedir_Expand w imgPath) as [expanded|e];
    [|simpl; intuition congruence].
  assert (X : exists x, Ok expanded = Ok x) by now exists expanded.
  destruct (fs_Stat w expanded) as [info|e].
  - destruct (IsDir info).
    + destruct (fs_Stat w (path_Join w expanded "oci-layout")) as [i|e];
        [simpl; repeat split; auto; congruence|].
      destruct (negb (os_IsNotExist (Some e))); simpl;
        repeat split; auto; congruence.
    + destruct (fs_Open w expanded) as [archive|e];
        [|simpl; repeat split; auto; congruence].
      destruct (probeArchive_range expanded archiveProbes archive) as [A B].
      repeat split; auto.
      destruct A as [A|A]; [now left|right].
      change (map snd archiveProbes)
        with [DockerTarballSource; OciTarballSource] in A.
      destruct A as [A|[A|[]]]; rewrite <- A; reflexivity.
  - destruct (os_IsNotExist (Some e)); simpl; repeat split; auto; congruence.
Qed.

(** X4: the filesystem probe answers one of the three sources that live on
    a filesystem, or [UnknownSource], never a daemon or registry source;
    and next to an error the source is [UnknownSource]. *)
Theorem detectSourceFromPath_range (w : World) (imgPath : string) :
  let source := fst (detectSourceFromPath w imgPath) in
  (source = UnknownSource \/ path_based source = true) /\
  source <> DockerDaemonSource /\
  source <> OciRegistrySource /\
  (snd (detectSourceFromPath w imgPath) <> None -> source = UnknownSource).
Proof.
  cbv zeta.
  destruct (detectSourceFromPath_shape w imgPath) as ([A|A] & B & _);
    repeat split; auto;
    try (rewrite A; discriminate);
    intros E; rewrite E in A; discriminate A.
Qed.

Lemma detectSource_candidates_one (w : World) (u : string) :
  Cut SchemeSeparator u = None ->
  detectSource_candidates w u =
  match detectSourceFromPath w u with
  | (_, Some err) => Err err
  | (source, None) => Ok (source, u)
  end.
Proof. intros C. unfold detectSource_candidates, SplitN2. now rewrite C. Qed.

Lemma detectSource_candidates_two (w : World) (u hint rest : string) :
  Cut SchemeSeparator u = Some (hint, rest) ->
  detectSource_candidates w u = Ok (ParseSourceScheme hint, rest).
Proof.
  intros C. unfold detectSource_candidates, SplitN2. rewrite C.
  now rewrite (TrimPrefix_Cut _ _ _ _ C).
Qed.

(** The second switch: an unknown source or an error comes with an empty
    location. *)
Lemma detectSource_resolve_shape (w : World) (u location : string)
  (source : Source) :
  let r := detectSource_resolve w u source location in
  (snd r <> None -> fst (fst r) = UnknownSource) /\
  (fst (fst r) = UnknownSource -> snd (fst r) = "").
Proof.
  cbv zeta. destruct source.
  - rewrite detectSource_resolve_Unknown.
    destruct (isRegistryReference w u) eqn:R; simpl; [|tauto].
    split; [congruence|]. intros E.
    pose proof (DetermineImagePullSource_known w u R) as K.
    rewrite E in K. discriminate K.
  - unfold detectSource_resolve. destruct (homedir_Expand w location); simpl;
      (split; [congruence|]); try discriminate; reflexivity.
  - simpl. split; [congruence | discriminate].
  - unfold detectSource_resolve. destruct (homedir_Expand w location); simpl;
      (split; [congruence|]); try discriminate; reflexivity.
  - unfold detectSource_resolve. destruct (homedir_Expand w location); simpl;
      (split; [congruence|]); try discriminate; reflexivity.
  - simpl. split; [congruence | discriminate].
Qed.

(** X5: whenever [detectSource] returns an error, and whenever it returns
    [UnknownSource], the location it returns is empty; an error always
    comes with [UnknownSource]. *)
Theorem detectSource_unknown_has_no_location (w : World) (userInput : string) :
  let r := detectSource w userInput in
  (snd r <> None -> fst (fst r) = UnknownSource /\ snd (fst r) = "") /\
  (fst (fst r) = UnknownSource -> snd (fst r) = "").
Proof.
  cbv zeta. unfold detectSource.
  destruct (detectSource_candidates w userInput) as [[source location]|e].
  - destruct (detectSource_resolve_shape w userInput location source) as [A B].
    split; [|exact B]. intros E. split; [now apply A | apply B; now apply A].
  - simpl. tauto.
Qed.

Lemma detectSource_unknown_has_no_location_witness :
  fst (fst (detectSource Sample.w_alpine "oci-dir:~bob/img")) = UnknownSource /\
  snd (fst (detectSource Sample.w_alpine "oci-dir:~bob/img")) = "".
Proof.
  apply (proj1 (detectSource_unknown_has_no_location Sample.w_alpine
                  "oci-dir:~bob/img")).
  vm_compute. discriminate.
Defined.

(** X6: on a string without separator, what the filesystem probe finds
    wins: the source it found is returned with the expanded path as
    location, whether or not the string is an image reference too and
    whatever the daemon answers. *)
Theorem detectSource_filesystem_first
  (w : World) (userInput : string) (source : Source) :
  Cut SchemeSeparator userInput = None ->
  detectSourceFromPath w userInput = (source, None) ->
  source <> UnknownSource ->
  exists expanded,
    homedir_Expand w userInput = Ok expanded /\
    detectSource w userInput = (source, expanded, None).
Proof.
  intros C P N.
  destruct (detectSourceFromPath_shape w userInput) as (A & _ & X).
  rewrite P in A, X. simpl in A, X.
  destruct (X N) as [expanded E]. exists expanded. split; [exact E|].
  unfold detectSource. rewrite (detectSource_candidates_one _ _ C), P.
  destruct A as [A|A]; [contradiction|].
  unfold detectSource_resolve. rewrite E.
  destruct source; try discriminate A; reflexivity.
Qed.

Lemma detectSource_filesystem_first_witness :
  isRegistryReference SampleMore.w_shadow "alpine" = true /\
  detectSource SampleMore.w_shadow "alpine"
    = (DockerTarballSource, "alpine", None).
Proof.
  split; [reflexivity|].
  destruct (detectSource_filesystem_first SampleMore.w_shadow "alpine"
              DockerTarballSource eq_refl eq_refl) as [expanded [E D]].
  - discriminate.
  - injection E as <-. exact D.
Defined.

Lemma DetermineImagePullSource_daemon (w : World) (u : string) :
  DetermineImagePullSource w u = DockerDaemonSource -> daemon_answers w.
Proof.
  unfold DetermineImagePullSource, daemon_answers.
  destruct (isRegistryReference w u); simpl; [|discriminate].
  destruct (docker_GetClient w); [discriminate|].
  destruct (client_Ping w) as [pong|]; [|discriminate].
  destruct (String.eqb_spec (APIVersion pong) ""); [discriminate|].
  intros _. split; [reflexivity|]. now exists pong.
Qed.

(** X7: where a daemon or registry source comes from.  [detectSource]
    answers [DockerDaemonSource] or [OciRegistrySource] without error, and
    only in two ways: the hint before the first separator names that
    source, and the location is the remainder; or the whole input is the
    location, it is a weakly valid image reference, and the source is what
    [DetermineImagePullSource] chose, the daemon only if it answered. *)
Theorem detectSource_pull_source_provenance
  (w : World) (userInput : string) :
  let r := detectSource w userInput in
  fst (fst r) = DockerDaemonSource \/ fst (fst r) = OciRegistrySource ->
  snd r = None /\
  ((exists hint,
      Cut SchemeSeparator userInput = Some (hint, snd (fst r)) /\
      ParseSourceScheme hint = fst (fst r)) \/
   (snd (fst r) = userInput /\
    isRegistryReference w userInput = true /\
    DetermineImagePullSource w userInput = fst (fst r) /\
    (fst (fst r) = DockerDaemonSource -> daemon_answers w))).
Proof.
  cbv zeta. unfold detectSource.
  assert (U : forall location,
            let r := detectSource_resolve w userInput UnknownSource location in
            fst (fst r) = DockerDaemonSource \/ fst (fst r) = OciRegistrySource ->
            snd r = None /\
            snd (fst r) = userInput /\
            isRegistryReference w userInput = true /\
            DetermineImagePullSource w userInput = fst (fst r) /\
            (fst (fst r) = DockerDaemonSource -> daemon_answers w)).
  { intros location. cbv zeta. rewrite detectSource_resolve_Unknown.
    destruct (isRegistryReference w userInput); simpl.
    - intros _. do 4 (split; [reflexivity|]).
      apply DetermineImagePullSource_daemon.
    - intros [H|H]; discriminate H. }
  destruct (Cut SchemeSeparator userInput) as [[hint rest]|] eqn:C.
  - rewrite (detectSource_candidates_two _ _ _ _ C).
    destruct (ParseSourceScheme hint) eqn:P.
    + intros H. destruct (U rest H) as (A & B). split; [exact A|]. now right.
    + unfold detectSource_resolve.
      destruct (homedir_Expand w rest); simpl; intros [H|H]; discriminate H.
    + simpl. intros _. split; [reflexivity|]. left. now exists hint.
    + unfold detectSource_resolve.
      destruct (homedir_Expand w rest); simpl; intros [H|H]; discriminate H.
    + unfold detectSource_resolve.
      destruct (homedir_Expand w rest); simpl; intros [H|H]; discriminate H.
    + simpl. intros _. split; [reflexivity|]. left. now exists hint.
  - rewrite (detectSource_candidates_one _ _ C).
    destruct (detectSourceFromPath_shape w userInput) as (A & _ & _).
    destruct (detectSourceFromPath w userInput) as [source [e|]]; simpl in *.
    + intros [H|H]; discriminate H.
    + destruct A as [->|A].
      * intros H. destruct (U userInput H) as (A & B). split; [exact A|].
        now right.
      * unfold detectSource_resolve.
        destruct source; try discriminate A;
          destruct (homedir_Expand w userInput); simpl;
          intros [H|H]; discriminate H.
Qed.

Lemma detectSource_pull_source_provenance_witness :
  snd (detectSource Sample.w_daemon "alpine") = None /\
  daemon_answers Sample.w_daemon.
Proof.
  destruct (detectSource_pull_source_provenance Sample.w_daemon "alpine"
              (or_introl eq_refl)) as [A [[hint [C _]]|(_ & _ & _ & D)]].
  - discriminate C.
  - split; [exact A | exact (D eq_refl)].
Defined.

(** X8: an explicit scheme is taken at its word.  With a hint of the
    vocabulary, [detectSource] consults neither the filesystem nor the
    reference parser nor the daemon: two worlds that expand the remainder
    alike give the same answer. *)
Theorem detectSource_explicit_scheme_unchecked
  (w w' : World) (userInput hint rest : string) :
  Cut SchemeSeparator userInput = Some (hint, rest) ->
  ParseSourceScheme hint <> UnknownSource ->
  homedir_Expand w' rest = homedir_Expand w rest ->
  detectSource w' userInput = detectSource w userInput.
Proof.
  intros C N E. unfold detectSource.
  rewrite !(detectSource_candidates_two _ _ _ _ C).
  unfold detectSource_resolve. rewrite E.
  destruct (ParseSourceScheme hint); try reflexivity. now elim N.
Qed.

Lemma detectSource_explicit_scheme_unchecked_witness :
  detectSource Sample.w_alpine "docker:alpine"
  = detectSource Sample.w_daemon "docker:alpine" /\
  detectSource Sample.w_alpine "docker:alpine"
  = (DockerDaemonSource, "alpine", None).
Proof.
  split; [|reflexivity].
  apply (detectSource_explicit_scheme_unchecked Sample.w_daemon Sample.w_alpine
           "docker:alpine" "docker" "alpine" eq_refl); [discriminate|reflexivity].
Defined.

Lemma scanTar_headers_absent (before : list string) (rest : list tar_item)
  (name : string) (pos : nat) :
  ~ In name before ->
  scanTar (map TarHeader before ++ rest)%list name pos
  = scanTar rest name (pos + List.length before).
Proof.
  revert pos; induction before as [|n before IH]; intros pos A; simpl.
  - now rewrite Nat.add_0_r.
  - destruct (String.eqb_spec n name) as [->|N]; [elim A; now left|].
    rewrite IH; [f_equal; lia|]. intros H. apply A. now right.
Qed.

(** X9: a file that holds neither manifest.json nor oci-layout, the empty
    file included, is no source and no error: both lookups end in "not
    found" and the probe answers [UnknownSource]. *)
Theorem detectSourceFromPath_unsupported_archive
  (w : World) (imgPath expanded : string) (info : FileInfo) (archive : File)
  (names : list string) :
  homedir_Expand w imgPath = Ok expanded ->
  fs_Stat w expanded = Ok info ->
  IsDir info = false ->
  fs_Open w expanded = Ok archive ->
  f_seek_fault archive = None ->
  f_items archive = map TarHeader names ->
  ~ In "manifest.json" names ->
  ~ In "oci-layout" names ->
  detectSourceFromPath w imgPath = (UnknownSource, None).
Proof.
  intros E S D O K I M L. unfold detectSourceFromPath.
  rewrite E, S, D, O. simpl. unfold Seek0. rewrite K.
  unfold ReaderFromTar. simpl. rewrite I.
  rewrite <- (app_nil_r (map TarHeader names)).
  rewrite (scanTar_headers_absent _ _ _ _ M). simpl.
  rewrite (scanTar_headers_absent _ _ _ _ L). reflexivity.
Qed.

Lemma detectSourceFromPath_unsupported_archive_witness :
  detectSourceFromPath SampleMore.w_files "empty.tar" = (UnknownSource, None).
Proof.
  apply (detectSourceFromPath_unsupported_archive SampleMore.w_files
           "empty.tar" "empty.tar" {| IsDir := false |}
           {| f_items := []; f_pos := 0; f_seek_fault := None |} []);
    try reflexivity; simpl; tauto.
Defined.

(** X10: a read fault that is not "not found", met before manifest.json,
    ends the probe with that fault as it is, unwrapped: oci-layout is not
    looked up any more, even where it stands before the fault. *)
Theorem detectSourceFromPath_fault_short_circuits
  (w : World) (imgPath expanded : string) (info : FileInfo) (archive : File)
  (before : list string) (fault : error) (after : list tar_item) :
  homedir_Expand w imgPath = Ok expanded ->
  fs_Stat w expanded = Ok info ->
  IsDir info = false ->
  fs_Open w expanded = Ok archive ->
  f_seek_fault archive = None ->
  f_items archive = (map TarHeader before ++ TarFault fault :: after)%list ->
  ~ In "manifest.json" before ->
  errors_As_ErrFileNotFound fault = false ->
  detectSourceFromPath w imgPath = (UnknownSource, Some fault).
Proof.
  intros E S D O K I M F. unfold detectSourceFromPath.
  rewrite E, S, D, O. simpl. unfold Seek0. rewrite K.
  unfold ReaderFromTar. simpl. rewrite I.
  rewrite (scanTar_headers_absent _ _ _ _ M). simpl. now rewrite F.
Qed.

Lemma detectSourceFromPath_fault_short_circuits_witness :
  detectSourceFromPath SampleMore.w_files "broken.tar"
  = (UnknownSource, Some (ErrNew "unexpected EOF")).
Proof.
  apply (detectSourceFromPath_fault_short_circuits SampleMore.w_files
           "broken.tar" "broken.tar" {| IsDir := false |}
           {| f_items := [TarHeader "oci-layout";
                          TarFault (ErrNew "unexpected EOF");
                          TarHeader "manifest.json"];
              f_pos := 0; f_seek_fault := None |}
           ["oci-layout"] (ErrNew "unexpected EOF")
           [TarHeader "manifest.json"]);
    try reflexivity.
  simpl. intros [H|[]]. discriminate H.
Defined.

End ImageFacts.

(** ** Package [docker], beyond the claims *)

Section DockerFacts.

Variable h : Host.
Variable imageStr : string.

(** X11: credentials without a user name are not sent.  When the auth
    configuration of the registry has an empty user name, the pull options
    carry no auth, whatever the password and without consulting the
    encoder; with a user name they carry the base64 text of the encoded
    pair, and an encoder error is returned as it is. *)
Theorem newPullOptions_credentials
  (cfg : ConfigFile) (hostname : string) (creds : AuthConfig) :
  name_ParseReference_registry h imageStr = Ok hostname ->
  cfg_GetAuthConfig h cfg hostname = Ok creds ->
  (Username creds = "" ->
   newPullOptions h imageStr cfg = Ok {| RegistryAuth := "" |}) /\
  (Username creds <> "" ->
   newPullOptions h imageStr cfg =
     match json_Encode h (Username creds) (Password creds) with
     | Ok buffer => Ok {| RegistryAuth := base64_EncodeToString h buffer |}
     | Err e => Err e
     end).
Proof.
  intros P A. unfold newPullOptions, encodeCredentials. rewrite P, A.
  split; intros U.
  - now rewrite U.
  - destruct (String.eqb_spec (Username creds) ""); [contradiction|].
    simpl. now destruct (json_Encode h (Username creds) (Password creds)).
Qed.

Lemma pull_loop_flags (resp : list decode_step) (s : State) :
  st_bus (fst (pull_loop resp s)) = st_bus s /\
  st_tar_closed (fst (pull_loop resp s)) = st_tar_closed s /\
  st_reader_closed (fst (pull_loop resp s)) = st_reader_closed s /\
  st_estimate_completed (fst (pull_loop resp s)) = st_estimate_completed s.
Proof.
  revert s. induction resp as [|[ev|err] rest IH]; intros s.
  - simpl. auto.
  - change (pull_loop (Decoded ev :: rest))
      with (if summary_line ev then pull_loop rest
            else modify (with_status (onEvent ev)) ;;; pull_loop rest).
    destruct (summary_line ev); [apply IH|].
    run_go. destruct (IH (with_status (onEvent ev) s)) as (A & B & C & D).
    rewrite A, B, C, D. simpl. auto.
  - simpl. auto.
Qed.

(** What [pull] does to the state besides the status record. *)
Lemma pull_effects (s : State) :
  st_tar_closed (fst (pull h imageStr s)) = st_tar_closed s /\
  st_reader_closed (fst (pull h imageStr s)) = st_reader_closed s /\
  st_estimate_completed (fst (pull h imageStr s)) = st_estimate_completed s /\
  st_bus (fst (pull h imageStr s)) =
    match config_Load h with
    | Ok _ => (st_bus s ++ [PullDockerImage imageStr])%list
    | Err _ => st_bus s
    end /\
  (snd (pull h imageStr s) = Ok tt <->
   exists cfg options resp,
     config_Load h = Ok cfg /\
     host_GetClient h = None /\
     newPullOptions h imageStr cfg = Ok options /\
     client_ImagePull h imageStr options = Ok resp /\
     decode_fault (pr_stream resp) = None).
Proof.
  unfold pull. run_go.
  destruct (config_Load h) as [cfg|e]; simpl.
  2:{ do 4 (split; [reflexivity|]). split; [discriminate|].
      intros (c & o & r & H & _). discriminate H. }
  destruct (host_GetClient h) as [e|]; simpl.
  { do 4 (split; [reflexivity|]). split; [discriminate|].
    intros (c & o & r & _ & H & _). discriminate H. }
  destruct (newPullOptions h imageStr cfg) as [options|e] eqn:EO; simpl.
  2:{ do 4 (split; [reflexivity|]). split; [discriminate|].
      intros (c & o & r & H1 & _ & H & _).
      injection H1 as <-. congruence. }
  destruct (client_ImagePull h imageStr options) as [resp|e] eqn:EP; simpl.
  2:{ do 4 (split; [reflexivity|]). split; [discriminate|].
      intros (c & o & r & H1 & _ & H2 & H & _).
      injection H1 as <-. congruence. }
  match goal with
  | |- context [pull_loop ?r ?s0] =>
      destruct (pull_loop_flags r s0) as (A & B & C & D);
      destruct (pull_loop_run r s0) as (_ & R & _);
      destruct (pull_loop r s0) as [s1 [[]|e]]
  end; simpl in *.
  - do 4 (split; [assumption|]). split.
    + intros _. exists cfg, options, resp. do 4 (split; [now auto|]).
      destruct (decode_fault (pr_stream resp)); [discriminate R|reflexivity].
    + reflexivity.
  - do 4 (split; [assumption|]). split; [discriminate|].
    intros (c & o & r & H1 & _ & H2 & H3 & F).
    injection H1 as <-.
    assert (o = options) as -> by congruence.
    assert (r = resp) as -> by congruence.
    rewrite F in R. discriminate R.
Qed.

(** X12: [pull] announces itself before it reaches for the daemon.  When
    the docker configuration cannot be loaded the state is untouched;
    otherwise exactly one pull event is put on the bus, whatever happens
    afterwards; and [pull] succeeds exactly when the configuration loads,
    the client, the options and the response are obtained, and the stream
    decodes to its end: what the decoded events say plays no part. *)
Theorem pull_announces_then_depends_on_decoding (s : State) :
  (forall e, config_Load h = Err e ->
             pull h imageStr s
             = (s, Err (ErrWrap "failed to load docker config" e))) /\
  (forall cfg, config_Load h = Ok cfg ->
               st_bus (fst (pull h imageStr s))
               = (st_bus s ++ [PullDockerImage imageStr])%list) /\
  (snd (pull h imageStr s) = Ok tt <->
   exists cfg options resp,
     config_Load h = Ok cfg /\
     host_GetClient h = None /\
     newPullOptions h imageStr cfg = Ok options /\
     client_ImagePull h imageStr options = Ok resp /\
     decode_fault (pr_stream resp) = None).
Proof.
  split; [|split].
  - intros e E. unfold pull. run_go. now rewrite E.
  - intros cfg E. destruct (pull_effects s) as (_ & _ & _ & B & _).
    now rewrite E in B.
  - apply pull_effects.
Qed.

(** The three ways the existence check of [Provide] can go. *)
Lemma Provide_inspect_cases (s : State) :
  (exists inspect,
     inspect_fault h = None /\ st_local s = Some inspect /\
     Provide_inspect h imageStr s = (s, Ok inspect)) \/
  (exists e,
     inspect_fault h = Some e /\ client_IsErrNotFound e = false /\
     Provide_inspect h imageStr s
     = (s, Err (ErrWrap "unable to inspect existing image" e))) \/
  (((inspect_fault h = None /\ st_local s = None) \/
    (exists e, inspect_fault h = Some e /\ client_IsErrNotFound e = true)) /\
   Provide_inspect h imageStr s
   = (fst (pull h imageStr s),
      match snd (pull h imageStr s) with
      | Ok _ => Ok ImageInspect_zero
      | Err e => Err e
      end)).
Proof.
  unfold Provide_inspect, ImageInspectWithRaw. run_go.
  destruct (inspect_fault h) as [e|] eqn:F; simpl.
  - destruct (client_IsErrNotFound e) eqn:N; simpl.
    + right; right. split; [right; now exists e|].
      now destruct (pull h imageStr s) as [s1 [[]|e1]].
    + right; left. now exists e.
  - destruct (st_local s) as [inspect|] eqn:L; simpl.
    + left. now exists inspect.
    + right; right. split; [now left|].
      now destruct (pull h imageStr s) as [s1 [[]|e1]].
Qed.

(** [Provide] after the existence check, with a client at hand, spelled
    out on the answers of the daemon. *)
Lemma Provide_save_exact (tempTarFile : string) (inspectResult : ImageInspect)
  (s : State) :
  host_GetClient h = None ->
  Provide_save h imageStr tempTarFile inspectResult s =
  match inspect_fault h, st_local s with
  | Some e, _ =>
      (s, Err (ErrWrap "unable to trace image save progress"
                 (ErrWrap "unable to inspect image" e)))
  | None, None =>
      (s, Err (ErrWrap "unable to trace image save progress"
                 (ErrWrap "unable to inspect image"
                    (ErrImageNotFound imageStr))))
  | None, Some inspect =>
      let s1 := set_stage requesting
                  (publish (FetchImage imageStr (VirtualSize inspect)) s) in
      match client_ImageSave h imageStr with
      | Err e => (s1, Err (ErrWrap "unable to save image tar" e))
      | Ok readCloser =>
          let s2 := write_bytes (rc_bytes readCloser)
                      (set_stage saving (SetCompleted s1)) in
          match rc_fault readCloser with
          | Some e =>
              (close_reader s2, Err (ErrWrap "unable to save image to tar" e))
          | None =>
              if (rc_bytes readCloser =? 0)%Z
              then (close_reader s2,
                    Err (ErrNew "cannot provide an empty image"))
              else (close_reader
                      (hand_off (tempTarFile, RepoTags inspectResult,
                                 RepoDigests inspectResult) s2),
                    tarball_Provide h tempTarFile (RepoTags inspectResult)
                      (RepoDigests inspectResult))
          end
      end
  end.
Proof.
  intros G. unfold Provide_save, Provide_copy, trackSaveProgress,
    ImageInspectWithRaw. run_go. rewrite G. simpl.
  destruct (inspect_fault h); simpl; [reflexivity|].
  destruct (st_local s); simpl; [|reflexivity].
  destruct (client_ImageSave h imageStr) as [readCloser|e]; simpl;
    [|reflexivity].
  destruct (rc_fault readCloser); simpl; [reflexivity|].
  destruct (rc_bytes readCloser =? 0)%Z; simpl; [reflexivity|].
  now destruct (tarball_Provide h tempTarFile (RepoTags inspectResult)
                  (RepoDigests inspectResult)).
Qed.

Lemma Provide_exact (s : State) :
  Provide h imageStr s =
  match tmpDirGen_NewTempDir h with
  | Err e => (s, Err e)
  | Ok imageTempDir =>
      let tempTarFile := host_path_Join h imageTempDir "image.tar" in
      match os_Create h tempTarFile with
      | Some e => (s, Err (ErrWrap "unable to create temp file for image" e))
      | None =>
          match host_GetClient h with
          | Some e =>
              (close_tar s, Err (ErrWrap "unable to create a docker client" e))
          | None =>
              match Provide_inspect h imageStr s with
              | (s1, Err e) => (close_tar s1, Err e)
              | (s1, Ok inspectResult) =>
                  (close_tar
                     (fst (Provide_save h imageStr tempTarFile inspectResult s1)),
                   snd (Provide_save h imageStr tempTarFile inspectResult s1))
              end
          end
      end
  end.
Proof.
  unfold Provide. run_go.
  destruct (tmpDirGen_NewTempDir h) as [imageTempDir|e]; simpl; [|reflexivity].
  destruct (os_Create h _); simpl; [reflexivity|].
  destruct (host_GetClient h); simpl; [reflexivity|].
  destruct (Provide_inspect h imageStr s) as [s1 [inspectResult|e]]; simpl;
    [|reflexivity].
  now destruct (Provide_save h imageStr _ inspectResult s1).
Qed.

(** X13: [Provide] pulls only what the daemon reports missing.  A pull
    event on the bus after [Provide] means that the first inspection ended
    in a not-found error, and the event names the image of the provider;
    an image held locally, or any other inspection error, never leads to a
    pull. *)
Theorem Provide_pulls_only_when_not_found
  (local : option ImageInspect) (source : string) :
  In (PullDockerImage source)
     (st_bus (fst (Provide h imageStr (init local)))) ->
  source = imageStr /\
  ((inspect_fault h = None /\ local = None) \/
   (exists e, inspect_fault h = Some e /\ client_IsErrNotFound e = true)).
Proof.
  rewrite Provide_exact. cbv zeta.
  destruct (tmpDirGen_NewTempDir h) as [dir|e0]; [|intros []].
  destruct (os_Create h _); [intros []|].
  destruct (host_GetClient h) eqn:G; [intros []|].
  destruct (Provide_inspect_cases (init local))
    as [(i & F & L & E)|[(e & F & N & E)|[NF E]]]; rewrite E.
  - rewrite (Provide_save_exact _ _ _ G), F, L. cbv zeta.
    destruct (client_ImageSave h imageStr) as [rc|e1]; simpl.
    + destruct (rc_fault rc); simpl.
      * intros [H|[]]; discriminate H.
      * destruct (rc_bytes rc =? 0)%Z; simpl; intros [H|[]]; discriminate H.
    + intros [H|[]]; discriminate H.
  - intros [].
  - intros H. split; [|exact NF].
    destruct (pull_effects (init local)) as (_ & _ & _ & B & _).
    assert (K : In (PullDockerImage source)
                   (st_bus (fst (pull h imageStr (init local))))).
    { destruct (snd (pull h imageStr (init local))) as [[]|e1];
        [|exact H].
      rewrite (Provide_save_exact _ _ _ G) in H. cbv zeta in H.
      destruct (inspect_fault h); [exact H|].
      destruct (st_local (fst (pull h imageStr (init local))));
        [|exact H].
      destruct (client_ImageSave h imageStr) as [rc|e1];
        [destruct (rc_fault rc); [|destruct (rc_bytes rc =? 0)%Z]|];
        simpl in H; apply in_app_or in H;
        destruct H as [H|[H|[]]]; try exact H; discriminate H. }
    rewrite B in K. destruct (config_Load h); simpl in K.
    + destruct K as [K|[]]. now injection K.
    + destruct K.
Qed.


(** X15: what a successful [Provide] puts on the bus.  A pull event first,
    if and only if the image was not held locally, then one fetch event,
    whose size is the virtual size of the record the daemon holds when the
    save starts: the freshly pulled one on a run that pulled. *)
Theorem Provide_success_events (local : option ImageInspect) (image : Image) :
  snd (Provide h imageStr (init local)) = Ok image ->
  exists stored,
    st_local (fst (Provide h imageStr (init local))) = Some stored /\
    st_bus (fst (Provide h imageStr (init local))) =
      (match local with
       | Some _ => []
       | None => [PullDockerImage imageStr]
       end ++ [FetchImage imageStr (VirtualSize stored)])%list.
Proof.
  rewrite Provide_exact. cbv zeta.
  destruct (tmpDirGen_NewTempDir h) as [dir|e0]; [|discriminate].
  destruct (os_Create h _); [discriminate|].
  destruct (host_GetClient h) eqn:G; [discriminate|].
  assert (P : forall s1 ir,
            snd (Provide_save h imageStr (host_path_Join h dir "image.tar")
                   ir s1) = Ok image ->
            exists stored,
              st_local s1 = Some stored /\
              st_local (fst (Provide_save h imageStr
                               (host_path_Join h dir "image.tar") ir s1))
              = Some stored /\
              st_bus (fst (Provide_save h imageStr
                             (host_path_Join h dir "image.tar") ir s1))
              = (st_bus s1 ++ [FetchImage imageStr (VirtualSize stored)])%list).
  { intros s1 ir. rewrite (Provide_save_exact _ _ _ G). cbv zeta.
    destruct (inspect_fault h); [discriminate|].
    destruct (st_local s1) as [stored|] eqn:L; [|discriminate].
    destruct (client_ImageSave h imageStr) as [rc|e1]; [|discriminate].
    destruct (rc_fault rc); [discriminate|].
    destruct (rc_bytes rc =? 0)%Z; [discriminate|].
    simpl. intros _. exists stored. rewrite L. auto. }
  destruct (Provide_inspect_cases (init local))
    as [(i & F & L & E)|[(e & F & N & E)|[NF E]]]; rewrite E.
  - simpl. intros R. destruct (P _ _ R) as (stored & A & B & C).
    exists stored. simpl in L. subst local.
    split; [exact B | rewrite C; reflexivity].
  - discriminate.
  - destruct (pull_effects (init local)) as (_ & _ & _ & B & K & _).
    destruct (snd (pull h imageStr (init local))) as [[]|e1] eqn:R;
      [|discriminate].
    simpl. intros R'. destruct (P _ _ R') as (stored & A & B' & C).
    exists stored. split; [exact B'|]. rewrite C, B.
    destruct (K eq_refl) as (cfg & _ & _ & ECfg & _). rewrite ECfg.
    destruct NF as [[F L]|[e [F _]]].
    + simpl in L. subst local. reflexivity.
    + rewrite (Provide_save_exact _ _ _ G), F in R'. discriminate R'.
Qed.

(** X16: the tarball provider is handed an archive only after a clean copy
    of at least one byte, and then its answer is the answer of [Provide],
    an error of it included and unwrapped. *)
Theorem Provide_hand_off_only_after_copy
  (local : option ImageInspect) (tempTarFile : string)
  (tags digests : list string) :
  st_handoff (fst (Provide h imageStr (init local)))
    = Some (tempTarFile, tags, digests) ->
  exists readCloser,
    client_ImageSave h imageStr = Ok readCloser /\
    rc_fault readCloser = None /\
    rc_bytes readCloser <> 0%Z /\
    st_copied (fst (Provide h imageStr (init local))) = rc_bytes readCloser /\
    snd (Provide h imageStr (init local))
    = tarball_Provide h tempTarFile tags digests.
Proof.
  rewrite Provide_exact. cbv zeta.
  destruct (tmpDirGen_NewTempDir h) as [dir|e0]; [|discriminate].
  destruct (os_Create h _); [discriminate|].
  destruct (host_GetClient h) eqn:G; [discriminate|].
  assert (P : forall s1 ir,
            st_handoff s1 = None ->
            st_handoff (fst (Provide_save h imageStr
                               (host_path_Join h dir "image.tar") ir s1))
              = Some (tempTarFile, tags, digests) ->
            exists readCloser,
              client_ImageSave h imageStr = Ok readCloser /\
              rc_fault readCloser = None /\
              rc_bytes readCloser <> 0%Z /\
              st_copied (fst (Provide_save h imageStr
                                (host_path_Join h dir "image.tar") ir s1))
              = rc_bytes readCloser /\
              snd (Provide_save h imageStr
                     (host_path_Join h dir "image.tar") ir s1)
              = tarball_Provide h tempTarFile tags digests).
  { intros s1 ir N. rewrite (Provide_save_exact _ _ _ G). cbv zeta.
    destruct (inspect_fault h); [simpl; congruence|].
    destruct (st_local s1); [|simpl; congruence].
    destruct (client_ImageSave h imageStr) as [rc|e1]; [|simpl; congruence].
    destruct (rc_fault rc) eqn:F; [simpl; congruence|].
    destruct (Z.eqb_spec (rc_bytes rc) 0) as [|NZ]; [simpl; congruence|].
    simpl. intros [= <- <- <-]. exists rc. auto. }
  destruct (Provide_inspect_cases (init local))
    as [(i & F & L & E)|[(e & F & N & E)|[NF E]]]; rewrite E.
  - simpl. apply P. reflexivity.
  - discriminate.
  - destruct (pull_frame h imageStr (init local)) as [_ N].
    destruct (snd (pull h imageStr (init local))) as [[]|e1].
    + simpl. apply P. exact N.
    + simpl. rewrite N. discriminate.
Qed.

(** X17: a failed pull ends [Provide] with the error of [pull] as it is.
    When the image is missing and [pull] fails, no stage is set, no fetch
    event is published, nothing is saved, and the temp file is closed. *)
Theorem Provide_pull_failure_passes_through
  (imageTempDir : string) (e : error) :
  tmpDirGen_NewTempDir h = Ok imageTempDir ->
  os_Create h (host_path_Join h imageTempDir "image.tar") = None ->
  host_GetClient h = None ->
  inspect_fault h = None ->
  snd (pull h imageStr (init None)) = Err e ->
  let run := Provide h imageStr (init None) in
  snd run = Err e /\
  st_stage (fst run) = [] /\
  st_handoff (fst run) = None /\
  st_tar_closed (fst run) = true /\
  (forall size, ~ In (FetchImage imageStr size) (st_bus (fst run))).
Proof.
  intros D C G F R. cbv zeta. rewrite Provide_exact. cbv zeta.
  rewrite D, C, G.
  destruct (Provide_inspect_cases (init None))
    as [(i & _ & L & _)|[(e1 & F1 & _)|[_ E]]];
    [discriminate L | congruence |].
  rewrite E, R. simpl.
  destruct (pull_frame h imageStr (init None)) as [S N].
  destruct (pull_effects (init None)) as (_ & _ & _ & B & _).
  repeat split; auto.
  intros size H. rewrite B in H.
  destruct (config_Load h); simpl in H; [|exact H].
  destruct H as [H|[]]. discriminate H.
Qed.

End DockerFacts.

Lemma Provide_pulls_only_when_not_found_witness :
  (inspect_fault SampleHost.h_pull = None /\ @None ImageInspect = None) \/
  (exists e, inspect_fault SampleHost.h_pull = Some e /\
             client_IsErrNotFound e = true).
Proof.
  apply (Provide_pulls_only_when_not_found SampleHost.h_pull "alpine:latest"
           None "alpine:latest").
  left. reflexivity.
Defined.


Lemma Provide_success_events_witness :
  exists stored,
    st_local (fst (Provide SampleHost.h_pull "alpine:latest" (init None)))
    = Some stored /\
    st_bus (fst (Provide SampleHost.h_pull "alpine:latest" (init None)))
    = [PullDockerImage "alpine:latest";
       FetchImage "alpine:latest" (VirtualSize stored)].
Proof.
  exact (Provide_success_events SampleHost.h_pull "alpine:latest" None
           {| image_handle := 0 |} eq_refl).
Defined.

Lemma Provide_hand_off_only_after_copy_witness :
  snd (Provide SampleHost.h_pull "alpine:latest"
         (init (Some SampleHost.alpine)))
  = Ok {| image_handle := 1 |}.
Proof.
  destruct (Provide_hand_off_only_after_copy SampleHost.h_pull "alpine:latest"
              (Some SampleHost.alpine) "/tmp/stereoscope-1/image.tar"
              ["alpine:latest"] ["alpine@sha256:c5b1261d"] eq_refl)
    as (rc & _ & _ & _ & _ & R).
  exact R.
Defined.

Lemma Provide_pull_failure_passes_through_witness :
  snd (Provide SampleHost.h_broken "alpine:latest" (init None))
  = Err (ErrWrap "failed to pull image" (ErrNew "unexpected EOF")).
Proof.
  apply (Provide_pull_failure_passes_through SampleHost.h_broken
           "alpine:latest" "/tmp/stereoscope-1"); reflexivity.
Defined.

Lemma newPullOptions_credentials_witness :
  newPullOptions SampleHost.h_pull "alpine:latest"
    {| Filename := "/home/user/.docker/config.json" |}
  = Ok {| RegistryAuth := "" |}.
Proof.
  apply (proj1 (newPullOptions_credentials SampleHost.h_pull "alpine:latest"
                  {| Filename := "/home/user/.docker/config.json" |}
                  "index.docker.io" {| Username := ""; Password := "" |}
                  eq_refl eq_refl)).
  reflexivity.
Defined.

Lemma pull_announces_then_depends_on_decoding_witness :
  snd (pull SampleHost.h_pull "alpine:latest" (init None)) = Ok tt.
Proof.
  apply (proj2 (proj2 (pull_announces_then_depends_on_decoding
                         SampleHost.h_pull "alpine:latest" (init None)))).
  exists {| Filename := "/home/user/.docker/config.json" |},
         {| RegistryAuth := "" |},
         {| pr_stream := SampleHost.stream;
            pr_stored := Some SampleHost.alpine |}.
  repeat split.
Defined.

(** ** [client.go] *)

Section ClientFacts.

Import Client.

Variable w : World.
Variable h : Host.
Variable pv : Providers.
Variable registryOptions : option RegistryOptions.

(** X18: [GetImage] returns an image or an error, never both and never
    neither; and it returns the no-op cleanup exactly when the detection of
    the source itself failed, in which case nothing has happened yet and
    the error is the one of the detection. *)
Theorem GetImage_image_xor_error (userStr : string) (s : State) :
  let r := GetImage w h pv userStr registryOptions s in
  (fst (fst (snd r)) <> None <-> snd (snd r) = None) /\
  (snd (fst (snd r)) = NoCleanup <-> snd (detectSource w userStr) <> None) /\
  (forall err, snd (detectSource w userStr) = Some err ->
               r = (s, (None, NoCleanup, Some err))).
Proof.
  cbv zeta. unfold GetImage, GetImageFromSource.
  destruct (detectSource w userStr) as [[source input] [err|]]; simpl.
  - repeat split; try congruence; try discriminate;
      try (intros H; now elim H).
  - destruct (provider h pv input source registryOptions) as [provide|]; simpl.
    + destruct (provide s) as [s' [img|e]]; simpl.
      * destruct (img_Read pv img); simpl;
          repeat split; try congruence; try discriminate;
          try (intros H; now elim H).
      * repeat split; try congruence; try discriminate;
          try (intros H; now elim H).
    + repeat split; try congruence; try discriminate;
        try (intros H; now elim H).
Qed.

(** X19: when the detection is inconclusive, [GetImage] fails with unable
    determine image source before any provider runs: the state is
    untouched, and the cleanup of the generator made for the call is still
    handed back. *)
Theorem GetImage_undetermined (userStr : string) (s : State) :
  fst (fst (detectSource w userStr)) = UnknownSource ->
  snd (detectSource w userStr) = None ->
  GetImage w h pv userStr registryOptions s
  = (s, (None, GeneratorCleanup,
         Some (ErrNew "unable determine image source"))).
Proof.
  unfold GetImage, GetImageFromSource.
  destruct (detectSource w userStr) as [[source input] err]; simpl.
  now intros -> ->.
Qed.

(** X20: a failed [Read] is reported as text.  Whatever the source, when
    the provider delivers an image whose [Read] fails, the error returned
    is a new one that carries the text of the cause and not the cause:
    neither a not-found of the daemon nor a missing file can be recognised
    in it any more. *)
Theorem GetImageFromSource_read_error_is_opaque
  (input : string) (source : Source) (s s' : State) (provide : M Image)
  (img : Image) (cause : error) :
  provider h pv input source registryOptions = Some provide ->
  provide s = (s', Ok img) ->
  img_Read pv img = Some cause ->
  exists err,
    GetImageFromSource h pv input source registryOptions s
    = (s', (None, GeneratorCleanup, Some err)) /\
    err = ErrNew ("could not read image: " ++ fmt_plus_v pv cause) /\
    errors_As_ErrFileNotFound err = false /\
    client_IsErrNotFound err = false.
Proof.
  intros P R E. unfold GetImageFromSource. rewrite P, R, E.
  eexists. repeat split.
Qed.

Lemma DetermineImagePullSource_answers (u : string) :
  isRegistryReference w u = true ->
  daemon_answers w ->
  DetermineImagePullSource w u = DockerDaemonSource.
Proof.
  unfold DetermineImagePullSource, daemon_answers.
  intros -> [C [pong [P V]]]. rewrite C, P. simpl.
  destruct (String.eqb_spec (APIVersion pong) ""); [contradiction|reflexivity].
Qed.

(** X21: a bare image reference, with a daemon that answers, is fetched
    through the daemon provider on the whole string.  When the string has
    no separator, names no existing path and is a weakly valid reference,
    [GetImage] runs [Provide] of the daemon provider for it; an error of
    [Provide] is returned as it is, and an image it delivers is returned
    once [Read] went through. *)
Theorem GetImage_bare_reference_uses_daemon
  (userStr expanded missing : string) (s : State) :
  Cut SchemeSeparator userStr = None ->
  homedir_Expand w userStr = Ok expanded ->
  fs_Stat w expanded = Err (ErrNotExist missing) ->
  isRegistryReference w userStr = true ->
  daemon_answers w ->
  let r := GetImage w h pv userStr registryOptions s in
  detectSource w userStr = (DockerDaemonSource, userStr, None) /\
  fst r = fst (Provide h userStr s) /\
  (forall e, snd (Provide h userStr s) = Err e ->
             snd r = (None, GeneratorCleanup, Some e)) /\
  (forall img, snd (Provide h userStr s) = Ok img ->
               img_Read pv img = None ->
               snd r = (Some img, GeneratorCleanup, None)).
Proof.
  intros C E S R A. cbv zeta.
  assert (D : detectSource w userStr = (DockerDaemonSource, userStr, None)).
  { assert (P : detectSourceFromPath w userStr = (UnknownSource, None))
      by (unfold detectSourceFromPath; now rewrite E, S).
    rewrite (detectSource_no_separator _ _ C). unfold detect_without_hint.
    rewrite P. cbv beta iota.
    rewrite detectSource_resolve_Unknown, R.
    now rewrite (DetermineImagePullSource_answers _ R A). }
  split; [exact D|].
  unfold GetImage, GetImageFromSource. rewrite D. simpl.
  destruct (Provide h userStr s) as [s' [img|e]]; simpl.
  - destruct (img_Read pv img) eqn:I; simpl; repeat split;
      try discriminate; intros i [= <-]; congruence.
  - repeat split; try discriminate. now intros e' [= <-].
Qed.

(** X22: an archive named with the docker-archive scheme goes to the
    tarball provider under its expanded path and without tags or digests,
    unlike an image saved from the daemon; the provider's answer is the
    answer of [GetImage]. *)
Theorem GetImage_docker_archive
  (userStr hint rest location : string) (s : State) :
  Cut SchemeSeparator userStr = Some (hint, rest) ->
  ParseSourceScheme hint = DockerTarballSource ->
  homedir_Expand w rest = Ok location ->
  let r := GetImage w h pv userStr registryOptions s in
  st_handoff (fst r) = Some (location, [], []) /\
  (forall e, tarball_Provide h location [] [] = Err e ->
             snd r = (None, GeneratorCleanup, Some e)) /\
  (forall img, tarball_Provide h location [] [] = Ok img ->
               img_Read pv img = None ->
               snd r = (Some img, GeneratorCleanup, None)).
Proof.
  intros C P E. cbv zeta.
  assert (D : detectSource w userStr = (DockerTarballSource, location, None)).
  { unfold detectSource. rewrite (detectSource_candidates_two _ _ _ _ C), P.
    unfold detectSource_resolve. now rewrite E. }
  unfold GetImage, GetImageFromSource. rewrite D. simpl. run_go.
  destruct (tarball_Provide h location [] []) as [img|e]; simpl.
  - destruct (img_Read pv img) eqn:I; simpl; repeat split;
      try discriminate; intros i [= <-]; congruence.
  - repeat split; try discriminate. now intros e' [= <-].
Qed.

End ClientFacts.

Lemma GetImage_image_xor_error_witness :
  Client.GetImage Sample.w_alpine SampleHost.h_pull SampleMore.pv_reads
    "oci-dir:~bob/img" None (init None)
  = (init None,
     (None, Client.NoCleanup,
      Some (ErrWrap "unable to expand potential home dir expression"
              (ErrNew "cannot expand user-specific home dir")))).
Proof.
  apply (proj2 (proj2 (GetImage_image_xor_error Sample.w_alpine
                         SampleHost.h_pull SampleMore.pv_reads None
                         "oci-dir:~bob/img" (init None)))).
  reflexivity.
Defined.

Lemma GetImage_undetermined_witness :
  Client.GetImage Sample.w_alpine SampleHost.h_pull SampleMore.pv_reads
    "Alpine" None (init None)
  = (init None,
     (None, Client.GeneratorCleanup,
      Some (ErrNew "unable determine image source"))).
Proof.
  apply (GetImage_undetermined Sample.w_alpine SampleHost.h_pull
           SampleMore.pv_reads None "Alpine" (init None)); reflexivity.
Defined.

Lemma GetImageFromSource_read_error_is_opaque_witness :
  exists err,
    Client.GetImageFromSource SampleHost.h_pull SampleMore.pv_unreadable
      "layout" OciDirectorySource None (init None)
    = (init None, (None, Client.GeneratorCleanup, Some err)) /\
    err = ErrNew "could not read image: file not found: layer.tar" /\
    errors_As_ErrFileNotFound err = false /\
    client_IsErrNotFound err = false.
Proof.
  exact (GetImageFromSource_read_error_is_opaque SampleHost.h_pull
           SampleMore.pv_unreadable None "layout" OciDirectorySource
           (init None) (init None)
           (call (Ok {| image_handle := 7 |}) (fun e => e))
           {| image_handle := 7 |} (ErrFileNotFound "layer.tar")
           eq_refl eq_refl eq_refl).
Defined.

Lemma GetImage_bare_reference_uses_daemon_witness :
  snd (Client.GetImage Sample.w_daemon SampleHost.h_pull SampleMore.pv_reads
         "alpine" None (init None))
  = (Some {| image_handle := 0 |}, Client.GeneratorCleanup, None).
Proof.
  destruct (GetImage_bare_reference_uses_daemon Sample.w_daemon
              SampleHost.h_pull SampleMore.pv_reads None
              "alpine" "alpine" "alpine" (init None)
              eq_refl eq_refl eq_refl eq_refl) as (_ & _ & _ & R).
  - split; [reflexivity|].
    exists {| APIVersion := "1.41" |}. split; [reflexivity|discriminate].
  - apply R; reflexivity.
Defined.

Lemma GetImage_docker_archive_witness :
  st_handoff
    (fst (Client.GetImage Sample.w_alpine SampleHost.h_pull SampleMore.pv_reads
            "Docker-Archive:~/img.tar" None (init None)))
  = Some ("/home/user/img.tar", [], []).
Proof.
  exact (proj1 (GetImage_docker_archive Sample.w_alpine
                  SampleHost.h_pull SampleMore.pv_reads None
                  "Docker-Archive:~/img.tar" "Docker-Archive" "~/img.tar"
                  "/home/user/img.tar" (init None)
                  eq_refl eq_refl eq_refl)).
Defined.

Lemma detectSourceFromPath_range_witness :
  fst (detectSourceFromPath Sample.w_alpine "~bob/img") = UnknownSource.
Proof.
  apply (proj2 (proj2 (proj2 (detectSourceFromPath_range Sample.w_alpine
                                "~bob/img")))).
  vm_compute. discriminate.
Defined.
